(** * check_systemd_services.py: the systemd service-health check

    A shallow embedding of [src/check_systemd_services.py] and the
    properties of its classifier ([check_service]), its aggregation loop and
    verdict ([main]) and its message formatter ([get_message]).

    The script is a Python 2 program: [subprocess.check_output] returns a
    [str], which is a byte string, and the state names it is compared with
    are byte strings too.  Strings are therefore [string] (a list of 8-bit
    characters), compared byte by byte. *)

From Stdlib Require Import List String Ascii Bool ZArith Lia.
From Stdlib Require Import Sorting.Sorted Sorting.Permutation.
From Stdlib Require Import Structures.OrderedTypeEx.
From Stdlib Require Import Numbers.DecimalString.
Import ListNotations.

Local Open Scope string_scope.
Local Open Scope list_scope.

(** ** The Python built-ins the script calls *)

Module Py.

(** Exceptions that can reach the process boundary. *)
Inductive Exception : Type :=
| CalledProcessError (str : string)
| OSError (str : string)
| IndexError
| TypeError
| KeyError.

(** A computation that returns or raises. *)
Inductive result (A : Type) : Type :=
| Ok (a : A)
| Raise (e : Exception).
Arguments Ok {A} a.
Arguments Raise {A} e.

Definition bind {A B : Type} (m : result A) (k : A -> result B) : result B :=
  match m with
  | Ok a => k a
  | Raise e => Raise e
  end.

Definition LF : ascii := "010"%char.
Definition CR : ascii := "013"%char.

(** [str.isspace] on one byte: space, tab, line feed, vertical tab, form
    feed and carriage return. *)
Definition isspace (c : ascii) : bool :=
  match N_of_ascii c with
  | 9%N | 10%N | 11%N | 12%N | 13%N | 32%N => true
  | _ => false
  end.

Fixpoint lstrip (s : string) : string :=
  match s with
  | EmptyString => EmptyString
  | String c s' => if isspace c then lstrip s' else s
  end.

Fixpoint rstrip (s : string) : string :=
  match s with
  | EmptyString => EmptyString
  | String c s' =>
      match rstrip s' with
      | EmptyString => if isspace c then EmptyString else String c EmptyString
      | r => String c r
      end
  end.

(** [s.strip()] *)
Definition strip (s : string) : string := rstrip (lstrip s).

(** The longest prefix without white space, and what follows it. *)
Fixpoint span_nonspace (s : string) : string * string :=
  match s with
  | EmptyString => (EmptyString, EmptyString)
  | String c s' =>
      if isspace c then (EmptyString, s)
      else let (tok, rest) := span_nonspace s' in (String c tok, rest)
  end.

(** [s.split(None, maxsplit)]: at most [maxsplit] fields separated by runs
    of white space; whatever is left, without its leading white space, is
    the last item. *)
Fixpoint split (maxsplit : nat) (s : string) : list string :=
  match lstrip s with
  | EmptyString => []
  | r =>
      match maxsplit with
      | O => [r]
      | S m => let (tok, rest) := span_nonspace r in tok :: split m rest
      end
  end.

(** [s.splitlines()] of a byte string: lines end at LF, CR or CR LF, and
    the line ends are dropped. *)
Fixpoint splitlines (s : string) : list string :=
  match s with
  | EmptyString => []
  | String c s' =>
      if Ascii.eqb c LF then EmptyString :: splitlines s'
      else if Ascii.eqb c CR then
        match s' with
        | String c' s'' =>
            if Ascii.eqb c' LF then EmptyString :: splitlines s''
            else EmptyString :: splitlines s'
        | EmptyString => [EmptyString]
        end
      else
        match splitlines s' with
        | [] => [String c EmptyString]
        | l :: ls => String c l :: ls
        end
  end.

(** [s.replace(old, new)] for one-character [old] and [new]. *)
Fixpoint replace (s : string) (old new : ascii) : string :=
  match s with
  | EmptyString => EmptyString
  | String c s' =>
      String (if Ascii.eqb c old then new else c) (replace s' old new)
  end.

(** [x in xs] for a list of strings. *)
Definition contains (xs : list string) (x : string) : bool :=
  existsb (String.eqb x) xs.

(** [xs[i:j]] for [0 <= i <= j]. *)
Definition slice {A : Type} (xs : list A) (i j : nat) : list A :=
  firstn (j - i) (skipn i xs).

(** Values a class attribute can hold. *)
Inductive object : Type :=
| Int (v : Z)
| Str (s : string).

(** A dict with integer keys, as the list of its items; setting a key that
    is present overwrites its value. *)
Definition dict : Type := list (Z * string).

Fixpoint dict_set (d : dict) (k : Z) (v : string) : dict :=
  match d with
  | [] => [(k, v)]
  | (k', v') :: d' =>
      if Z.eqb k k' then (k, v) :: d' else (k', v') :: dict_set d' k v
  end.

(** [d[k]]: [None] stands for KeyError. *)
Fixpoint dict_get (d : dict) (k : Z) : option string :=
  match d with
  | [] => None
  | (k', v') :: d' => if Z.eqb k k' then Some v' else dict_get d' k
  end.

End Py.

Import Py.

Notation "x <- m ;; k" := (bind m (fun x => k))
  (at level 61, m at next level, right associativity).

(** ** [class Problem] *)

Module Problem.

(** The four problems, from more important to less. *)
Inductive t : Type :=
| failed
| dead
| not_loaded_but_not_inactive
| not_loaded_but_not_dead.

(** The integer each attribute is bound to. *)
Definition value (p : t) : Z :=
  match p with
  | failed => 0
  | dead => 1
  | not_loaded_but_not_inactive => 2
  | not_loaded_but_not_dead => 3
  end.

(** The identifier of each attribute. *)
Definition name (p : t) : string :=
  match p with
  | failed => "failed"
  | dead => "dead"
  | not_loaded_but_not_inactive => "not_loaded_but_not_inactive"
  | not_loaded_but_not_dead => "not_loaded_but_not_dead"
  end.

Definition all : list t :=
  [failed; dead; not_loaded_but_not_inactive; not_loaded_but_not_dead].

(** [vars(Problem).items()]: the four attributes and the entries Python
    adds to every class. *)
Definition vars : list (string * object) :=
  [ ("__module__", Str "__main__");
    ("__doc__", Str "Enum for problems that can apply to the services") ]
  ++ map (fun p => (name p, Int (value p))) all.

Definition eqb (p q : t) : bool := Z.eqb (value p) (value q).

End Problem.

(** ** [check_service] *)

(** Detect problems of a service; [None] is Python's [None]. *)
Definition check_service (serv_load serv_active serv_sub : string)
  : option Problem.t :=
  if serv_load =? "loaded" then
    if (serv_active =? "failed") || (serv_sub =? "failed") then
      Some Problem.failed
    else if serv_sub =? "dead" then
      Some Problem.dead
    else None
  else
    if negb (serv_active =? "inactive") then
      Some Problem.not_loaded_but_not_inactive
    else if negb (serv_sub =? "dead") then
      Some Problem.not_loaded_but_not_dead
    else None.

(** The decision table of the classifier as the specification prints it:
    one row per line, a condition on the three state strings and the
    result; the first row that matches wins. *)
Record table_row : Type := {
  row_matches : string -> string -> string -> bool;
  row_result : option Problem.t
}.

Definition decision_table : list table_row :=
  [ {| row_matches := fun l a s =>
         (l =? "loaded") && ((a =? "failed") || (s =? "failed"));
       row_result := Some Problem.failed |};
    {| row_matches := fun l a s => (l =? "loaded") && (s =? "dead");
       row_result := Some Problem.dead |};
    {| row_matches := fun l a s => (l =? "loaded");
       row_result := None |};
    {| row_matches := fun l a s =>
         negb (l =? "loaded") && negb (a =? "inactive");
       row_result := Some Problem.not_loaded_but_not_inactive |};
    {| row_matches := fun l a s =>
         negb (l =? "loaded") && (a =? "inactive") && negb (s =? "dead");
       row_result := Some Problem.not_loaded_but_not_dead |};
    {| row_matches := fun l a s =>
         negb (l =? "loaded") && (a =? "inactive") && (s =? "dead");
       row_result := None |} ].

(** The result of the first matching row; the outer [None] means that no
    row matches. *)
Fixpoint first_match (rows : list table_row) (l a s : string)
  : option (option Problem.t) :=
  match rows with
  | [] => None
  | r :: rows' =>
      if row_matches r l a s then Some (row_result r)
      else first_match rows' l a s
  end.


(** ** [get_message] *)

(** A problem found on a service: the tuple [(problem, service_name)]. *)
Abbreviation entry := (Problem.t * string)%type.

(** The dict comprehension of [get_message]: for every attribute of the
    class bound to an integer, the integer maps to the attribute's name
    with underscores replaced by spaces. *)
Definition problem_names : dict :=
  fold_left
    (fun d kv =>
       match snd kv with
       | Int v => dict_set d v (replace (fst kv) "_" " ")
       | Str _ => d
       end)
    Problem.vars [].

(** [problem != last_problem], where [last_problem] starts as [None]. *)
Definition differs (problem : Problem.t) (last_problem : option Problem.t)
  : bool :=
  match last_problem with
  | None => true
  | Some q => negb (Problem.eqb problem q)
  end.

(** The loop of [get_message], with its two variables as arguments. *)
Fixpoint get_message_loop (problems : list entry) (message : string)
    (last_problem : option Problem.t) : result string :=
  match problems with
  | [] => Ok message
  | (problem, service) :: rest =>
      if differs problem last_problem then
        match dict_get problem_names (Problem.value problem) with
        | None => Raise KeyError
        | Some label =>
            get_message_loop rest
              ((message ++ (label ++ ": ")) ++ (service ++ " "))
              (Some problem)
        end
      else
        get_message_loop rest (message ++ (service ++ " ")) last_problem
  end.

(** Format the message to print out. *)
Definition get_message (problems : list entry) : result string :=
  get_message_loop problems "" None.

(** ** Sorting the buckets *)

(** [x < y] on tuples [(problem, service_name)]: the first components that
    differ decide. *)
Definition tuple_lt (x y : entry) : bool :=
  let (p1, n1) := x in
  let (p2, n2) := y in
  if negb (Z.eqb (Problem.value p1) (Problem.value p2)) then
    Z.ltb (Problem.value p1) (Problem.value p2)
  else if negb (n1 =? n2) then String.ltb n1 n2
  else false.

(** [list.sort()] is a stable sort that compares with [<] only; here as an
    insertion sort that keeps an element ahead of the later ones it is not
    greater than. *)
Fixpoint insert (x : entry) (l : list entry) : list entry :=
  match l with
  | [] => [x]
  | y :: l' => if tuple_lt y x then y :: insert x l' else x :: l
  end.

Definition sort (l : list entry) : list entry := fold_right insert [] l.

(** ** [main] *)

(** How the process ends: a line printed and an exit status, or an exception
    nobody caught. *)
Inductive Outcome : Type :=
| Exit (printed : string) (status : Z)
| Uncaught (e : Exception).

(** [xs[i]] *)
Definition getitem {A : Type} (xs : list A) (i : nat) : result A :=
  match nth_error xs i with
  | Some x => Ok x
  | None => Raise IndexError
  end.

(** [check_service] called on an unpacked argument list: the call needs
    exactly three arguments. *)
Definition call_check_service (args : list string)
  : result (option Problem.t) :=
  match args with
  | [serv_load; serv_active; serv_sub] =>
      Ok (check_service serv_load serv_active serv_sub)
  | _ => Raise TypeError
  end.

(** One iteration of the loop over the lines, on the two lists. *)
Definition main_loop_body (critical_services : list string)
    (buckets : list entry * list entry) (line : string)
  : result (list entry * list entry) :=
  let (criticals, warnings) := buckets in
  let service_split := split 4 (strip line) in
  service_name <- getitem service_split 0 ;;
  problem <- call_check_service (slice service_split 1 4) ;;
  Ok match problem with
     | Some problem =>
         if contains critical_services service_name then
           if Problem.eqb problem Problem.failed then
             (criticals ++ [(problem, service_name)], warnings)
           else
             (criticals, warnings ++ [(problem, service_name)])
         else if negb (Problem.eqb problem Problem.dead) then
           (criticals, warnings ++ [(problem, service_name)])
         else (criticals, warnings)
     | None => (criticals, warnings)
     end.

Fixpoint main_loop (critical_services : list string) (lines : list string)
    (buckets : list entry * list entry)
  : result (list entry * list entry) :=
  match lines with
  | [] => Ok buckets
  | line :: rest =>
      buckets' <- main_loop_body critical_services buckets line ;;
      main_loop critical_services rest buckets'
  end.

(** What follows the loop: sort both lists, print the verdict and exit. *)
Definition report (criticals warnings : list entry) : Outcome :=
  let criticals := sort criticals in
  let warnings := sort warnings in
  match criticals, warnings with
  | _ :: _, _ =>
      match get_message (criticals ++ warnings) with
      | Ok message => Exit ("CRITICAL: " ++ message) 2
      | Raise e => Uncaught e
      end
  | [], _ :: _ =>
      match get_message warnings with
      | Ok message => Exit ("WARNING: " ++ message) 1
      | Raise e => Uncaught e
      end
  | [], [] => Exit "OK" 0
  end.

(** The main program.  [check_output] is what
    [subprocess.check_output(command.split())] did: it returned the output
    of the command or raised; of what it raises only
    [CalledProcessError] is caught. *)
Definition main (check_output : result string)
    (critical_services : list string) : Outcome :=
  match check_output with
  | Raise (CalledProcessError error) => Exit ("UNKNOWN: " ++ error) 3
  | Raise e => Uncaught e
  | Ok output =>
      match main_loop critical_services (splitlines output) ([], []) with
      | Raise e => Uncaught e
      | Ok (criticals, warnings) => report criticals warnings
      end
  end.

(** ** The data model of the specification *)

(** One unit of the listing. *)
Record UnitRecord : Type := {
  name : string;
  loadState : string;
  activeState : string;
  subState : string
}.

(** The record a line of the listing holds: the unit name first, then the
    three state strings; a line with fewer than four fields holds none. *)
Definition record_of_line (line : string) : option UnitRecord :=
  match split 4 (strip line) with
  | n :: l :: a :: s :: _ =>
      Some {| name := n; loadState := l; activeState := a; subState := s |}
  | _ => None
  end.

(** A line with fewer than the expected fields. *)
Definition malformed (line : string) : Prop :=
  (List.length (split 4 (strip line)) < 4)%nat.

(** What the loop raises on a malformed line: the subscript fails on a line
    without fields, the call on a line with one to three. *)
Definition raised_by (line : string) : Exception :=
  match split 4 (strip line) with
  | [] => IndexError
  | _ :: _ => TypeError
  end.

(** The listing a sequence of lines holds, when every line holds a record. *)
Fixpoint listing (lines : list string) : option (list UnitRecord) :=
  match lines with
  | [] => Some []
  | line :: rest =>
      match record_of_line line, listing rest with
      | Some u, Some us => Some (u :: us)
      | _, _ => None
      end
  end.

(** The classifier on a record. *)
Definition classify (u : UnitRecord) : option Problem.t :=
  check_service (loadState u) (activeState u) (subState u).

(** The classifications of a listing, the units without one dropped. *)
Definition classified (units : list UnitRecord) : list entry :=
  flat_map
    (fun u =>
       match classify u with
       | Some p => [(p, name u)]
       | None => []
       end)
    units.

(** Where the aggregator puts a classification. *)
Inductive Bucket : Type := CRITICALS | WARNINGS | Dropped.

Definition Bucket_eqb (b c : Bucket) : bool :=
  match b, c with
  | CRITICALS, CRITICALS | WARNINGS, WARNINGS | Dropped, Dropped => true
  | _, _ => false
  end.

(** The bucket rule of the specification, on one classification. *)
Definition bucket_of (critical : list string) (e : entry) : Bucket :=
  let (category, unit_name) := e in
  match category with
  | Problem.failed =>
      if contains critical unit_name then CRITICALS else WARNINGS
  | Problem.dead =>
      if contains critical unit_name then WARNINGS else Dropped
  | _ => WARNINGS
  end.

(** The classifications that go to a bucket, in listing order. *)
Definition bucket (critical : list string) (b : Bucket) (es : list entry)
  : list entry :=
  filter (fun e => Bucket_eqb (bucket_of critical e) b) es.

(** The four verdicts, their status words and exit codes. *)
Inductive Verdict : Type := OK | WARNING | CRITICAL | UNKNOWN.

Definition exit_code (v : Verdict) : Z :=
  match v with
  | OK => 0
  | WARNING => 1
  | CRITICAL => 2
  | UNKNOWN => 3
  end.

Definition status_word (v : Verdict) : string :=
  match v with
  | OK => "OK"
  | WARNING => "WARNING"
  | CRITICAL => "CRITICAL"
  | UNKNOWN => "UNKNOWN"
  end.

(** A printed line carries the status word of a verdict: the bare word for
    [OK], the word, a colon, a space and a body for the others. *)
Definition status_line (v : Verdict) (printed : string) : Prop :=
  match v with
  | OK => printed = status_word OK
  | _ => exists body, printed = (status_word v ++ ": " ++ body)%string
  end.

(** The label of a category: its name with underscores replaced by
    spaces. *)
Definition label (p : Problem.t) : string := replace (Problem.name p) "_" " ".

(** Consecutive entries of one category, grouped: the category and the unit
    names of the run. *)
Fixpoint groups (problems : list entry) : list (Problem.t * list string) :=
  match problems with
  | [] => []
  | (p, n) :: rest =>
      match groups rest with
      | (q, ns) :: gs =>
          if Problem.eqb p q then (p, n :: ns) :: gs
          else (p, [n]) :: (q, ns) :: gs
      | [] => [(p, [n])]
      end
  end.

(** Unit names, each followed by a space. *)
Fixpoint render_names (ns : list string) : string :=
  match ns with
  | [] => ""
  | n :: ns' => ((n ++ " ") ++ render_names ns')%string
  end.

(** A group: its label, a colon and a space, then its unit names. *)
Definition render_group (g : Problem.t * list string) : string :=
  ((label (fst g) ++ ": ") ++ render_names (snd g))%string.

Fixpoint render_groups (gs : list (Problem.t * list string)) : string :=
  match gs with
  | [] => ""
  | g :: gs' => (render_group g ++ render_groups gs')%string
  end.

(** What the loop of [get_message] still appends when [last_problem] is
    [last] and [problems] are left. *)
Definition render_rest (last : option Problem.t) (problems : list entry)
  : string :=
  match groups problems with
  | [] => ""
  | (q, ns) :: gs =>
      if differs q last then render_groups ((q, ns) :: gs)
      else (render_names ns ++ render_groups gs)%string
  end.

(** Orders on entries: by category, and by category then unit name (byte
    by byte). *)
Definition category_le (x y : entry) : Prop :=
  (Problem.value (fst x) <= Problem.value (fst y))%Z.

Definition entry_le (x y : entry) : Prop :=
  (Problem.value (fst x) < Problem.value (fst y))%Z
  \/ (fst x = fst y /\ String.leb (snd x) (snd y) = true).

Definition group_lt (g h : Problem.t * list string) : Prop :=
  (Problem.value (fst g) < Problem.value (fst h))%Z.

(** The entries of one category. *)
Definition of_category (c : Problem.t) (es : list entry) : list entry :=
  filter (fun e => Problem.eqb (fst e) c) es.

(** [after] keeps the entries of every category in the order they have in
    [before]. *)
Definition keeps_listing_order (before after : list entry) : Prop :=
  forall c, of_category c after = of_category c before.

(** A line of the command's output, with its line end. *)
Definition line (s : string) : string := (s ++ String LF EmptyString)%string.

(** The entries a sequence of groups stands for. *)
Definition ungroup (gs : list (Problem.t * list string)) : list entry :=
  flat_map (fun g => map (fun n => (fst g, n)) (snd g)) gs.

(** Every group has a unit, and neighbouring groups differ in category. *)
Fixpoint maximal_runs (gs : list (Problem.t * list string)) : Prop :=
  match gs with
  | [] => True
  | g :: gs' =>
      snd g <> []
      /\ match gs' with
         | h :: _ => fst g <> fst h
         | [] => True
         end
      /\ maximal_runs gs'
  end.

(** An entry is classified Failed. *)
Definition is_failed (e : entry) : Prop := fst e = Problem.failed.

(** Outputs of the listing command used as examples. *)
Definition scenario_A : string := line "db loaded failed failed".

Definition two_not_found : string :=
  (line "b.service not-found active running"
   ++ line "a.service not-found active running")%string.

Definition short_line : string :=
  (line "db.service loaded active running" ++ line "web.service loaded")%string.

Definition mixed_listing : string :=
  (line "web.service not-found active running Web"
   ++ line "cron.service loaded active dead Cron"
   ++ line "db.service loaded failed failed The database"
   ++ line "ssh.service loaded active running OpenSSH")%string.


Definition mixed_units : list UnitRecord :=
  [ {| name := "web.service"; loadState := "not-found";
       activeState := "active"; subState := "running" |};
    {| name := "cron.service"; loadState := "loaded";
       activeState := "active"; subState := "dead" |};
    {| name := "db.service"; loadState := "loaded";
       activeState := "failed"; subState := "failed" |};
    {| name := "ssh.service"; loadState := "loaded";
       activeState := "active"; subState := "running" |} ].

(** ** Lines as the listing command writes them *)

(** White space only. *)
Fixpoint blank (s : string) : bool :=
  match s with
  | EmptyString => true
  | String c s' => isspace c && blank s'
  end.

(** No white space. *)
Fixpoint nospace (s : string) : bool :=
  match s with
  | EmptyString => true
  | String c s' => negb (isspace c) && nospace s'
  end.

(** A field of a line: at least one character, none of them white
    space. *)
Definition field (s : string) : bool :=
  match s with
  | EmptyString => false
  | String _ _ => nospace s
  end.

(** What separates two fields: at least one character, all of them white
    space. *)
Definition separator (s : string) : bool :=
  match s with
  | EmptyString => false
  | String _ _ => blank s
  end.

(** Nothing, or a text whose first character is white space. *)
Definition starts_blank (s : string) : bool :=
  match s with
  | EmptyString => true
  | String c _ => isspace c
  end.

(** The entries whose category is not [c]. *)
Definition not_of_category (c : Problem.t) (es : list entry) : list entry :=
  filter (fun e => negb (Problem.eqb (fst e) c)) es.

(** * check_linux_ulimit.py: the open-files limit check

    As the service check, a Python 2 script: an [int] and a [str] can be
    compared, and the [int] is the smaller one. *)

Module Ulimit.

(** [libigmonplugins.common.ExitCodes] is not part of these sources; the
    script uses four of its attributes, taken here as they come. *)
Record ExitCodes : Type := {
  ok : Z;
  warning : Z;
  critical : Z;
  unknown : Z
}.

(** The proc file system at the time of the run: the entries of a
    directory and the lines of a file (each with its line end), [None]
    where [os.listdir] or [open] raise an OSError or IOError. *)
Record proc : Type := {
  listdir : string -> option (list string);
  readlines : string -> option (list string)
}.

Inductive Exception : Type :=
| AttributeError
| IndexError
| TypeError.

Inductive result (A : Type) : Type :=
| Returns (a : A)
| Raises (e : Exception).
Arguments Returns {A} a.
Arguments Raises {A} e.

Definition bind {A B : Type} (m : result A) (k : A -> result B) : result B :=
  match m with
  | Returns a => k a
  | Raises e => Raises e
  end.

(** How the process ends: a line printed by the script and an exit
    status, an exit of the option parser with its status, or an exception
    nobody caught. *)
Inductive Outcome : Type :=
| Exit (printed : string) (status : Z)
| ParserExit (status : Z)
| Uncaught (e : Exception).

(** [str(n)] for an integer. *)
Definition str_of_int (n : Z) : string :=
  DecimalString.NilZero.string_of_int (Z.to_int n).

(** [str(x)] *)
Definition str (x : object) : string :=
  match x with
  | Int n => str_of_int n
  | Str s => s
  end.

(** [s.isdigit()]: at least one character, all of them digits. *)
Fixpoint all_digits (s : string) : bool :=
  match s with
  | EmptyString => true
  | String c s' =>
      (N.leb 48 (N_of_ascii c) && N.leb (N_of_ascii c) 57) && all_digits s'
  end.

Definition isdigit (s : string) : bool :=
  match s with
  | EmptyString => false
  | String _ _ => all_digits s
  end.

(** [s.split()]: every field. *)
Definition split_all (s : string) : list string := split (String.length s) s.

(** [x > n], [x <= n] and [x == n] for an integer [n]: a [str] is greater
    than every integer and equal to none. *)
Definition gt (x : object) (n : Z) : bool :=
  match x with
  | Int a => Z.gtb a n
  | Str _ => true
  end.

Definition le (x : object) (n : Z) : bool :=
  match x with
  | Int a => Z.leb a n
  | Str _ => false
  end.

Definition eq_int (x : object) (n : Z) : bool :=
  match x with
  | Int a => Z.eqb a n
  | Str _ => false
  end.

(** [(x * warning / 100) <= n]: integer arithmetic for an [int]; a [str]
    times an integer is a [str], which cannot be divided. *)
Definition scaled_le (x : object) (warning n : Z) : result bool :=
  match x with
  | Int a => Returns (Z.leb (a * warning / 100) n)
  | Str _ => Raises TypeError
  end.

(** Return the contents of a directory under the proc file system. *)
Definition list_proc_db (fs : proc) (dirs : list string) : list string :=
  match listdir fs ("/proc/" ++ String.concat "/" dirs) with
  | Some entries => entries
  | None => []
  end.

(** Return the contents of a file under the proc file system; [None] is
    Python's [None]. *)
Definition read_proc_db (fs : proc) (dirs : list string)
  : option (list string) :=
  readlines fs ("/proc/" ++ String.concat "/" dirs).

(** Get the name of the process from the proc file system: [cmdline] is
    [None] or a list of lines, and a list has no [split]. *)
Definition get_proc_name (fs : proc) (pid : string) : result string :=
  match read_proc_db fs [pid; "cmdline"] with
  | Some (_ :: _) => Raises AttributeError
  | Some [] | None => Returns "unknown"
  end.

(** The loop of [get_proc_ulimit]. *)
Fixpoint first_limit (name : string) (limits : list string) : result object :=
  match limits with
  | [] => Returns (Int 0)
  | line :: rest =>
      if String.prefix name line then
        match nth_error (split_all line) 3 with
        | Some v => Returns (Str v)
        | None => Raises IndexError
        end
      else first_limit name rest
  end.

(** Return the soft limit value of the given limit. *)
Definition get_proc_ulimit (fs : proc) (pid name : string) : result object :=
  match read_proc_db fs [pid; "limits"] with
  | Some limits => first_limit name limits
  | None => Returns (Int 0)
  end.

(** One iteration of the loop of [get_state], on [state] and [msg]. *)
Definition get_state_body (E : ExitCodes) (fs : proc) (warning : Z)
    (acc : Z * string) (pid : string) : result (Z * string) :=
  let (state, msg) := acc in
  let num_fds := Z.of_nat (List.length (list_proc_db fs [pid; "fd"])) in
  bind (get_proc_ulimit fs pid "Max open files") (fun soft_limit =>
  if gt soft_limit num_fds || eq_int soft_limit 0 then
    Returns
      (if Z.eqb state (Ulimit.warning E) || Z.eqb state (critical E)
       then state else ok E, msg)
  else if le soft_limit num_fds then
    bind (get_proc_name fs pid) (fun proc_name =>
    Returns
      (critical E,
       (msg ++ "PID " ++ pid ++ " [" ++ proc_name
        ++ "] reached its soft limit (open: " ++ str_of_int num_fds
        ++ ", limit " ++ str soft_limit ++ ")"
        ++ String LF EmptyString)%string))
  else
    bind (scaled_le soft_limit warning num_fds) (fun nearly =>
    if nearly then
      bind (get_proc_name fs pid) (fun proc_name =>
      Returns
        (if Z.eqb state (critical E) then state else Ulimit.warning E,
         (msg ++ "PID " ++ pid ++ " [" ++ proc_name
          ++ "] nearly reached its soft limit at " ++ str_of_int num_fds
          ++ " open fds" ++ String LF EmptyString)%string))
    else Returns (state, msg))).

Fixpoint get_state_loop (E : ExitCodes) (fs : proc) (warning : Z)
    (pids : list string) (acc : Z * string) : result (Z * string) :=
  match pids with
  | [] => Returns acc
  | pid :: rest =>
      bind (get_state_body E fs warning acc pid)
        (get_state_loop E fs warning rest)
  end.

(** The process ids: the entries of /proc that are numbers. *)
Definition pids (fs : proc) : list string :=
  filter isdigit (list_proc_db fs []).

Definition get_state (E : ExitCodes) (fs : proc) (warning : Z)
  : result (Z * string) :=
  get_state_loop E fs warning (pids fs) (unknown E, "").

(** What [parser.parse_args()] does: it returns the options, of which
    the script reads [warning], or argparse ends the process itself, with
    status 2 on options it cannot read and with status 0 on -h. *)
Inductive parse_args : Type :=
| Namespace (warning : Z)
| SystemExit (status : Z).

(** The main program; [args] is what [parser.parse_args()] does and [uid]
    is [os.getuid()]. *)
Definition main (E : ExitCodes) (fs : proc) (args : parse_args) (uid : Z)
  : Outcome :=
  match args with
  | SystemExit status => ParserExit status
  | Namespace warning =>
      if negb (Z.eqb uid 0) then
        Exit "I need to be run as root, really" (unknown E)
      else
        match get_state E fs warning with
        | Returns (state, msg) =>
            Exit (if Z.eqb state (ok E) then (msg ++ "OK")%string else msg)
              state
        | Raises e => Uncaught e
        end
  end.

(** The usual codes of a monitoring plugin. *)
Definition nagios : ExitCodes :=
  {| ok := 0; warning := 1; critical := 2; unknown := 3 |}.

(** A proc file system with the process 812, which has three open files
    and a soft limit of two. *)
Definition one_process : proc :=
  {| listdir := fun path =>
       if path =? "/proc/" then Some ["812"; "cpuinfo"; "self"]
       else if path =? "/proc/812/fd" then Some ["0"; "1"; "2"]
       else None;
     readlines := fun path =>
       if path =? "/proc/812/limits" then
         Some [ line "Limit                     Soft Limit  Hard Limit  Units";
                line "Max cpu time              unlimited   unlimited   seconds";
                line "Max open files            2           4096        files" ]
       else if path =? "/proc/812/cmdline" then Some ["/usr/sbin/sshd"]
       else None |}.

End Ulimit.

(** * check_postgres_pgbouncer_requests.py: reading the statistics

    [get_pgbouncer_requests], the part of the script that picks the
    number out of what [psql] prints; again Python 2, where the output of
    the command and the database name are both of type [str]. *)

Module Pgbouncer.

Inductive Exception : Type :=
| IndexError
| ValueError.

Inductive result (A : Type) : Type :=
| Returns (a : A)
| Raises (e : Exception).
Arguments Returns {A} a.
Arguments Raises {A} e.

Definition bind {A B : Type} (m : result A) (k : A -> result B) : result B :=
  match m with
  | Returns a => k a
  | Raises e => Raises e
  end.

(** [s[n:]] *)
Fixpoint drop (n : nat) (s : string) : string :=
  match n, s with
  | S n', String _ s' => drop n' s'
  | _, _ => s
  end.

(** Where [sep] first occurs in [s]: what is before it and what is after
    it; [None] when it does not occur. *)
Fixpoint partition (sep s : string) : option (string * string) :=
  if String.prefix sep s then Some (EmptyString, drop (String.length sep) s)
  else
    match s with
    | EmptyString => None
    | String c s' =>
        match partition sep s' with
        | Some (before, after) => Some (String c before, after)
        | None => None
        end
    end.

(** [s.split(sep)] for a separator that is not empty: the pieces between
    the occurrences of [sep], found from left to right.  Every cut
    shortens what is left, so that [fuel] above the length of [s] is
    never used up. *)
Fixpoint split_fuel (fuel : nat) (sep s : string) : list string :=
  match fuel with
  | O => [s]
  | S fuel' =>
      match partition sep s with
      | Some (before, after) => before :: split_fuel fuel' sep after
      | None => [s]
      end
  end.

(** [s.split(sep)]: at white space when [sep] is [None]; an empty
    separator is a ValueError. *)
Definition split (s : string) (sep : option string) : result (list string) :=
  match sep with
  | None => Returns (Ulimit.split_all s)
  | Some EmptyString => Raises ValueError
  | Some sep => Returns (split_fuel (S (String.length s)) sep s)
  end.

(** [xs[i]] *)
Definition getitem {A : Type} (xs : list A) (i : nat) : result A :=
  match nth_error xs i with
  | Some x => Returns x
  | None => Raises IndexError
  end.

(** Get the actual pgbouncer requests per second on the regarding
    database, from the [output] of the [psql] command; [dbname] is the
    value of the option, [None] when it is not given. *)
Definition get_pgbouncer_requests (output : string) (dbname : option string)
  : result string :=
  bind (split output dbname) (fun pieces =>
  bind (getitem pieces 1) (fun row =>
  bind (split row (Some "|")) (fun columns =>
  getitem columns 5))).

(** [sep] starts at no position of [b] in the text [b ++ rest]. *)
Fixpoint starts_nowhere (sep b rest : string) : bool :=
  match b with
  | EmptyString => true
  | String c b' =>
      negb (String.prefix sep (b ++ rest)) && starts_nowhere sep b' rest
  end.

(** No vertical bar. *)
Fixpoint no_bar (s : string) : bool :=
  match s with
  | EmptyString => true
  | String c s' => negb (Ascii.eqb c "|") && no_bar s'
  end.

(** What [show stats] prints for two databases. *)
Definition two_databases : string :=
  (line "app_old|81|9000|7000|400|12|130|110|5"
   ++ line "app|204|88000|91000|1300|57|960|1020|6")%string.

End Pgbouncer.

(** * Properties *)

(** ** Problems and strings *)

Lemma Problem_value_inj p q : Problem.value p = Problem.value q -> p = q.
Proof. destruct p, q; simpl; intros H; try reflexivity; discriminate. Qed.

Lemma Problem_eqb_spec p q : reflect (p = q) (Problem.eqb p q).
Proof.
  unfold Problem.eqb.
  destruct (Z.eqb_spec (Problem.value p) (Problem.value q)) as [E | N].
  - left. now apply Problem_value_inj.
  - right. intros ->. now apply N.
Qed.

Lemma Problem_eqb_sym p q : Problem.eqb p q = Problem.eqb q p.
Proof. unfold Problem.eqb. apply Z.eqb_sym. Qed.

Lemma append_assoc (a b c : string) :
  ((a ++ b) ++ c = a ++ (b ++ c))%string.
Proof. induction a as [| x a IH]; simpl; [reflexivity | now rewrite IH]. Qed.

Lemma append_empty_r (a : string) : (a ++ "")%string = a.
Proof. induction a as [| x a IH]; simpl; [reflexivity | now rewrite IH]. Qed.

(** ** The classifier *)

(** C1: [check_service] follows the decision table row by row, the first
    matching row deciding; every triple of state strings matches a row, so
    each gets a category or none, never an error; and a loaded unit whose
    active state is "failed" is classified Failed whatever its sub-state. *)
Theorem check_service_decision_table :
  (forall l a s : string,
      first_match decision_table l a s = Some (check_service l a s))
  /\ (forall s : string,
         check_service "loaded" "failed" s = Some Problem.failed)
  /\ (forall l a s : string,
         check_service l a s = None
         \/ exists p, check_service l a s = Some p /\ In p Problem.all).
Proof.
  split; [| split].
  - intros l a s. unfold check_service, decision_table, first_match.
    cbn [row_matches row_result].
    destruct (l =? "loaded"); cbn [andb negb].
    + destruct (a =? "failed"), (s =? "failed"), (s =? "dead");
        reflexivity.
    + destruct (a =? "inactive"), (s =? "dead"); reflexivity.
  - intros s. reflexivity.
  - intros l a s. unfold check_service.
    destruct (l =? "loaded").
    + destruct ((a =? "failed") || (s =? "failed")).
      * right. eexists. split; [reflexivity | simpl; tauto].
      * destruct (s =? "dead"); [right | now left].
        eexists. split; [reflexivity | simpl; tauto].
    + destruct (negb (a =? "inactive")).
      * right. eexists. split; [reflexivity | simpl; tauto].
      * destruct (negb (s =? "dead")); [right | now left].
        eexists. split; [reflexivity | simpl; tauto].
Qed.

(** ** The message *)

Lemma problem_names_label p :
  dict_get problem_names (Problem.value p) = Some (label p).
Proof. destruct p; reflexivity. Qed.

Lemma groups_head p n (rest : list entry) :
  exists ns gs, groups ((p, n) :: rest) = (p, n :: ns) :: gs.
Proof.
  simpl. destruct (groups rest) as [| [q ns] gs].
  - now exists [], [].
  - destruct (Problem.eqb p q).
    + now exists ns, gs.
    + now exists [], ((q, ns) :: gs).
Qed.

Lemma render_rest_cons last p n (rest : list entry) :
  render_rest last ((p, n) :: rest)
  = ((if differs p last then label p ++ ": " else "")
       ++ (n ++ " ") ++ render_rest (Some p) rest)%string.
Proof.
  unfold render_rest. simpl groups.
  destruct (groups rest) as [| [q ns] gs].
  - destruct (differs p last); simpl; unfold render_group; simpl;
      now rewrite ?append_assoc, ?append_empty_r.
  - simpl differs. rewrite (Problem_eqb_sym q p).
    destruct (Problem_eqb_spec p q) as [-> | N]; simpl negb; cbv iota.
    + destruct (differs q last); simpl; unfold render_group; simpl;
        now rewrite ?append_assoc.
    + destruct (differs p last); simpl; unfold render_group; simpl;
        now rewrite ?append_assoc, ?append_empty_r.
Qed.

Lemma differs_false p last : differs p last = false -> last = Some p.
Proof.
  destruct last as [q |]; simpl; [| discriminate].
  destruct (Problem_eqb_spec p q) as [-> | N]; [reflexivity | discriminate].
Qed.

Lemma get_message_loop_render problems : forall message last,
  get_message_loop problems message last
  = Ok (message ++ render_rest last problems)%string.
Proof.
  induction problems as [| [p n] rest IH]; intros message last.
  - simpl. unfold render_rest. simpl. now rewrite append_empty_r.
  - cbn [get_message_loop]. rewrite render_rest_cons, problem_names_label.
    destruct (differs p last) eqn:D; rewrite IH; f_equal.
    + now rewrite !append_assoc.
    + apply differs_false in D. subst last. now rewrite !append_assoc.
Qed.

Lemma get_message_groups problems :
  get_message problems = Ok (render_groups (groups problems)).
Proof.
  unfold get_message. rewrite get_message_loop_render. simpl. f_equal.
  unfold render_rest. destruct (groups problems) as [| [q ns] gs]; reflexivity.
Qed.

(** ** The order of tuples and the sort *)

Lemma string_compare_refl (a : string) : String.compare a a = Eq.
Proof.
  pose proof (String.compare_antisym a a) as H.
  destruct (String.compare a a); simpl in H; congruence.
Qed.

Lemma string_leb_refl (a : string) : String.leb a a = true.
Proof. unfold String.leb. now rewrite string_compare_refl. Qed.

Lemma string_compare_lt_trans (a b c : string) :
  String.compare a b = Lt -> String.compare b c = Lt ->
  String.compare a c = Lt.
Proof.
  intros H1 H2. apply String_as_OT.cmp_lt.
  apply String_as_OT.lt_trans with b; now apply String_as_OT.cmp_lt.
Qed.

Lemma string_leb_trans (a b c : string) :
  String.leb a b = true -> String.leb b c = true -> String.leb a c = true.
Proof.
  unfold String.leb.
  destruct (String.compare a b) eqn:E1; try discriminate;
    destruct (String.compare b c) eqn:E2; try discriminate; intros _ _.
  - apply String.compare_eq_iff in E1, E2. subst.
    now rewrite string_compare_refl.
  - apply String.compare_eq_iff in E1. subst. now rewrite E2.
  - apply String.compare_eq_iff in E2. subst. now rewrite E1.
  - now rewrite (string_compare_lt_trans a b c).
Qed.

Lemma string_ltb_leb (a b : string) :
  String.ltb a b = true -> String.leb a b = true.
Proof.
  unfold String.ltb, String.leb.
  destruct (String.compare a b); congruence.
Qed.

Lemma string_not_ltb_leb (a b : string) :
  String.ltb a b = false -> String.leb b a = true.
Proof.
  unfold String.ltb, String.leb. rewrite (String.compare_antisym b a).
  destruct (String.compare a b); simpl; congruence.
Qed.

Lemma tuple_lt_entry_le (x y : entry) : tuple_lt x y = true -> entry_le x y.
Proof.
  destruct x as [p1 n1], y as [p2 n2]. unfold tuple_lt, entry_le. simpl.
  destruct (Z.eqb_spec (Problem.value p1) (Problem.value p2)) as [E | N];
    simpl.
  - destruct (n1 =? n2)%string; simpl; [discriminate |].
    intros H. right. split; [now apply Problem_value_inj |].
    now apply string_ltb_leb.
  - intros H. left. now apply Z.ltb_lt.
Qed.

Lemma not_tuple_lt_entry_le (x y : entry) :
  tuple_lt x y = false -> entry_le y x.
Proof.
  destruct x as [p1 n1], y as [p2 n2]. unfold tuple_lt, entry_le. simpl.
  destruct (Z.eqb_spec (Problem.value p1) (Problem.value p2)) as [E | N];
    simpl.
  - apply Problem_value_inj in E. subst p2.
    destruct (String.eqb_spec n1 n2) as [-> | Nn]; simpl; intros H; right;
      split; try reflexivity.
    + apply string_leb_refl.
    + now apply string_not_ltb_leb.
  - intros H. left. apply Z.ltb_ge in H. lia.
Qed.

Lemma entry_le_trans (x y z : entry) :
  entry_le x y -> entry_le y z -> entry_le x z.
Proof.
  unfold entry_le. intros [L1 | [E1 S1]] [L2 | [E2 S2]].
  - left. lia.
  - left. now rewrite <- E2.
  - left. now rewrite E1.
  - right. split; [congruence |]. now apply string_leb_trans with (snd y).
Qed.

Lemma entry_le_category_le (x y : entry) : entry_le x y -> category_le x y.
Proof.
  unfold entry_le, category_le. intros [L | [E _]]; [lia | rewrite E; lia].
Qed.

Lemma insert_perm x l : Permutation (x :: l) (insert x l).
Proof.
  induction l as [| y l IH]; simpl.
  - reflexivity.
  - destruct (tuple_lt y x).
    + rewrite perm_swap. now apply perm_skip.
    + reflexivity.
Qed.

Lemma sort_perm l : Permutation l (sort l).
Proof.
  induction l as [| x l IH]; simpl.
  - constructor.
  - rewrite <- insert_perm. now apply perm_skip.
Qed.

Lemma insert_sorted x l :
  StronglySorted entry_le l -> StronglySorted entry_le (insert x l).
Proof.
  induction 1 as [| y l Hs IH Hy]; simpl.
  - repeat constructor.
  - destruct (tuple_lt y x) eqn:T.
    + constructor; [exact IH |].
      apply (Permutation_Forall (insert_perm x l)).
      constructor; [now apply tuple_lt_entry_le | exact Hy].
    + apply not_tuple_lt_entry_le in T.
      constructor; [now constructor |].
      constructor; [exact T |].
      eapply Forall_impl; [| exact Hy].
      intros z Hz. now apply entry_le_trans with y.
Qed.

Lemma sort_sorted l : StronglySorted entry_le (sort l).
Proof.
  induction l as [| x l IH]; simpl; [constructor | now apply insert_sorted].
Qed.

Lemma StronglySorted_impl {A : Type} (R S : A -> A -> Prop) (l : list A) :
  (forall x y, R x y -> S x y) -> StronglySorted R l -> StronglySorted S l.
Proof.
  intros HRS. induction 1 as [| x l Hs IH Hx]; constructor; [exact IH |].
  eapply Forall_impl; [| exact Hx]. intros y. apply HRS.
Qed.

Lemma sort_In l e : In e (sort l) <-> In e l.
Proof.
  split; apply Permutation_in;
    [symmetry |]; apply sort_perm.
Qed.

(** ** Groups *)

Lemma ungroup_groups problems : ungroup (groups problems) = problems.
Proof.
  induction problems as [| [p n] rest IH]; [reflexivity |].
  simpl groups. revert IH. destruct (groups rest) as [| [q ns] gs].
  - simpl. now intros <-.
  - destruct (Problem_eqb_spec p q) as [-> | N]; simpl; now intros <-.
Qed.

Lemma groups_maximal problems : maximal_runs (groups problems).
Proof.
  induction problems as [| [p n] rest IH]; [exact I |].
  simpl groups. revert IH. destruct (groups rest) as [| [q ns] gs].
  - simpl. intros _. repeat split. discriminate.
  - destruct (Problem_eqb_spec p q) as [-> | N].
    + simpl. intros (_ & H & M). repeat split; [discriminate | exact H | exact M].
    + intros M. simpl. repeat split; try discriminate; try exact N; apply M.
Qed.

Lemma groups_cons p n (rest : list entry) :
  groups ((p, n) :: rest)
  = match groups rest with
    | (q, ns) :: gs =>
        if Problem.eqb p q then (p, n :: ns) :: gs
        else (p, [n]) :: (q, ns) :: gs
    | [] => [(p, [n])]
    end.
Proof. reflexivity. Qed.

Lemma groups_sorted problems :
  StronglySorted category_le problems ->
  StronglySorted group_lt (groups problems).
Proof.
  induction 1 as [| [p n] rest Hs IH Hp]; [constructor |].
  rewrite groups_cons.
  destruct rest as [| [q m] rest'].
  - simpl. repeat constructor.
  - destruct (groups_head q m rest') as (ns & gs & G).
    rewrite G in IH |- *. inversion IH as [| ? ? IHs IHq]; subst.
    inversion Hp as [| ? ? Hq _]; subst.
    unfold category_le in Hq. simpl in Hq.
    destruct (Problem_eqb_spec p q) as [-> | N].
    + constructor; [exact IHs | exact IHq].
    + assert (L : (Problem.value p < Problem.value q)%Z).
      { destruct (Z.eq_dec (Problem.value p) (Problem.value q)) as [E | E];
          [apply Problem_value_inj in E; contradiction | lia]. }
      constructor; [exact IH |].
      constructor; [exact L |].
      eapply Forall_impl; [| exact IHq].
      unfold group_lt. simpl. intros g Hg. lia.
Qed.

Lemma label_inj p q : label p = label q -> p = q.
Proof. destruct p, q; intros H; try reflexivity; discriminate. Qed.

Lemma sorted_groups_labels gs :
  StronglySorted group_lt gs ->
  NoDup (map (fun g => label (fst g)) gs).
Proof.
  induction 1 as [| g gs Hs IH Hg]; simpl; constructor; [| exact IH].
  intros Hin. apply in_map_iff in Hin. destruct Hin as (h & E & Hh).
  apply label_inj in E.
  rewrite Forall_forall in Hg. specialize (Hg h Hh).
  unfold group_lt in Hg. rewrite E in Hg. lia.
Qed.

(** ** The loop of [main] *)

Lemma malformed_iff line0 : malformed line0 <-> record_of_line line0 = None.
Proof.
  unfold malformed, record_of_line.
  destruct (split 4 (strip line0)) as [| n [| l [| a [| s rest]]]]; simpl;
    split; intros H; try reflexivity; try lia; discriminate.
Qed.

Lemma main_loop_body_record critical line0 u cs ws :
  record_of_line line0 = Some u ->
  main_loop_body critical (cs, ws) line0
  = Ok (cs ++ bucket critical CRITICALS (classified [u]),
        ws ++ bucket critical WARNINGS (classified [u])).
Proof.
  unfold record_of_line, main_loop_body.
  destruct (split 4 (strip line0)) as [| n [| l [| a [| s rest]]]];
    try discriminate.
  intros [= <-]. cbn [getitem nth_error bind slice skipn firstn Nat.sub].
  cbn [call_check_service bind]. f_equal.
  unfold classified, classify, bucket. cbn [flat_map name loadState activeState subState].
  destruct (check_service l a s) as [p |]; cbn [app filter].
  - unfold bucket_of.
    destruct (contains critical n); destruct p; cbn; now rewrite ?app_nil_r.
  - now rewrite !app_nil_r.
Qed.

Lemma main_loop_body_malformed critical line0 buckets :
  record_of_line line0 = None ->
  main_loop_body critical buckets line0 = Raise (raised_by line0).
Proof.
  unfold record_of_line, main_loop_body, raised_by. destruct buckets as [cs ws].
  destruct (split 4 (strip line0)) as [| n [| l [| a [| s rest]]]];
    try discriminate; intros _; reflexivity.
Qed.

Lemma classified_app us vs : classified (us ++ vs) = classified us ++ classified vs.
Proof. unfold classified. apply flat_map_app. Qed.

Lemma bucket_app critical b es fs :
  bucket critical b (es ++ fs) = bucket critical b es ++ bucket critical b fs.
Proof. unfold bucket. apply filter_app. Qed.

Lemma main_loop_listing critical lines : forall units cs ws,
  listing lines = Some units ->
  main_loop critical lines (cs, ws)
  = Ok (cs ++ bucket critical CRITICALS (classified units),
        ws ++ bucket critical WARNINGS (classified units)).
Proof.
  induction lines as [| line0 rest IH]; intros units cs ws.
  - simpl. intros [= <-]. cbn. now rewrite !app_nil_r.
  - simpl listing. destruct (record_of_line line0) as [u |] eqn:R;
      [| discriminate].
    destruct (listing rest) as [us |]; [| discriminate].
    intros [= <-]. cbn [main_loop].
    rewrite (main_loop_body_record _ _ _ _ _ R). cbn [bind].
    rewrite (IH us _ _ eq_refl).
    change (u :: us) with ([u] ++ us).
    now rewrite classified_app, !bucket_app, !app_assoc.
Qed.

Lemma main_loop_malformed critical lines : forall buckets,
  Exists malformed lines ->
  exists good bad rest,
    lines = good ++ bad :: rest
    /\ Forall (fun l => ~ malformed l) good
    /\ malformed bad
    /\ main_loop critical lines buckets = Raise (raised_by bad).
Proof.
  induction lines as [| line0 rest IH]; intros buckets H.
  - inversion H.
  - cbn [main_loop]. destruct (record_of_line line0) as [u |] eqn:R.
    + destruct buckets as [cs ws].
      rewrite (main_loop_body_record _ _ _ _ _ R). cbn [bind].
      assert (G : ~ malformed line0).
      { intros M. apply malformed_iff in M. congruence. }
      inversion H as [? ? M | ? ? M]; subst; [contradiction |].
      destruct (IH (cs ++ bucket critical CRITICALS (classified [u]),
                    ws ++ bucket critical WARNINGS (classified [u])) M)
        as (good & bad & rest' & -> & Fg & Mb & E).
      exists (line0 :: good), bad, rest'.
      repeat split; try assumption. now constructor.
    + rewrite (main_loop_body_malformed critical line0 buckets R).
      exists [], line0, rest.
      split; [reflexivity |]. split; [constructor |].
      split; [now apply malformed_iff | reflexivity].
Qed.

Lemma main_listing critical output units :
  listing (splitlines output) = Some units ->
  main (Ok output) critical
  = report (bucket critical CRITICALS (classified units))
           (bucket critical WARNINGS (classified units)).
Proof.
  intros L. unfold main.
  now rewrite (main_loop_listing critical _ units [] [] L).
Qed.

Lemma report_cases cs ws :
  let C := sort cs in
  let W := sort ws in
  report cs ws
  = match C, W with
    | _ :: _, _ => Exit ("CRITICAL: " ++ render_groups (groups (C ++ W))) 2
    | [], _ :: _ => Exit ("WARNING: " ++ render_groups (groups W)) 1
    | [], [] => Exit "OK" 0
    end.
Proof.
  cbv zeta. unfold report.
  destruct (sort cs) as [| c C]; destruct (sort ws) as [| w W];
    rewrite ?get_message_groups; reflexivity.
Qed.

(** ** The aggregator *)

Lemma bucket_In critical b es e :
  In e (bucket critical b es) <-> In e es /\ bucket_of critical e = b.
Proof.
  unfold bucket. rewrite filter_In.
  destruct (bucket_of critical e), b; simpl; intuition congruence.
Qed.

(** C2: on a listing whose lines all hold a record, the loop of [main]
    leaves in CRITICALS exactly the classifications of critical units that
    are Failed and in WARNINGS those of critical units with another
    category and of other units whose category is not Dead, each in
    listing order; a Dead classification of a unit that is not critical is
    in neither bucket, nor among the entries the message is built from. *)
Theorem aggregator_buckets (output : string) (critical : list string)
    (units : list UnitRecord) :
  listing (splitlines output) = Some units ->
  let C := bucket critical CRITICALS (classified units) in
  let W := bucket critical WARNINGS (classified units) in
  main_loop critical (splitlines output) ([], []) = Ok (C, W)
  /\ (forall p n, In (p, n) (classified units) ->
        (contains critical n = true -> p = Problem.failed ->
           In (p, n) C /\ ~ In (p, n) W)
        /\ (contains critical n = true -> p <> Problem.failed ->
              In (p, n) W /\ ~ In (p, n) C)
        /\ (contains critical n = false -> p <> Problem.dead ->
              In (p, n) W /\ ~ In (p, n) C))
  /\ (forall n, contains critical n = false ->
        ~ In (Problem.dead, n) C
        /\ ~ In (Problem.dead, n) W
        /\ ~ In (Problem.dead, n) (sort C ++ sort W)
        /\ ~ In (Problem.dead, n) (sort W)
        /\ ((forall p, In (p, n) (classified units) -> p = Problem.dead) ->
            ~ In n (map snd (sort C ++ sort W))
            /\ ~ In n (map snd (sort W)))).
Proof.
  intros L C W. split; [| split].
  - now rewrite (main_loop_listing critical _ units [] [] L).
  - intros p n Hin. subst C W. rewrite !bucket_In. unfold bucket_of.
    split; [| split]; intros Hc Hp; rewrite Hc;
      destruct p; try congruence;
      (split; [split; [assumption | reflexivity] | intros [_ B]; discriminate]).
  - intros n Hn.
    assert (HC : ~ In (Problem.dead, n) C).
    { subst C. rewrite bucket_In. unfold bucket_of. rewrite Hn.
      intros [_ B]. discriminate. }
    assert (HW : ~ In (Problem.dead, n) W).
    { subst W. rewrite bucket_In. unfold bucket_of. rewrite Hn.
      intros [_ B]. discriminate. }
    split; [exact HC |]. split; [exact HW |].
    split; [rewrite in_app_iff, !sort_In; tauto |].
    split; [now rewrite sort_In |].
    intros Hd.
    assert (N : forall l, (forall e, In e l -> In e C \/ In e W) ->
                          ~ In n (map snd l)).
    { intros l Hl Hin. apply in_map_iff in Hin.
      destruct Hin as ([p m] & E & Hin). simpl in E. subst m.
      assert (Hp : p = Problem.dead).
      { apply Hd. destruct (Hl _ Hin) as [B | B]; now apply bucket_In in B. }
      subst p. destruct (Hl _ Hin); contradiction. }
    split; apply N; intros e He.
    + rewrite in_app_iff, !sort_In in He. exact He.
    + rewrite sort_In in He. now right.
Qed.

Lemma aggregator_buckets_witness :
  listing (splitlines mixed_listing) = Some mixed_units
  /\ main_loop ["db.service"] (splitlines mixed_listing) ([], [])
     = Ok ([(Problem.failed, "db.service")],
           [(Problem.not_loaded_but_not_inactive, "web.service")]).
Proof.
  split; [reflexivity |].
  apply (aggregator_buckets mixed_listing ["db.service"] mixed_units).
  reflexivity.
Defined.

(** ** The order inside a bucket *)

(** C3, as the specification states it, fails: two units of one category
    listed as b.service, a.service leave the sort as a.service, b.service,
    so entries of one category do not keep their listing order. *)
Lemma sort_breaks_listing_order :
  main_loop [] (splitlines two_not_found) ([], [])
  = Ok ([], [ (Problem.not_loaded_but_not_inactive, "b.service");
              (Problem.not_loaded_but_not_inactive, "a.service") ])
  /\ sort [ (Problem.not_loaded_but_not_inactive, "b.service");
            (Problem.not_loaded_but_not_inactive, "a.service") ]
     = [ (Problem.not_loaded_but_not_inactive, "a.service");
         (Problem.not_loaded_but_not_inactive, "b.service") ]
  /\ ~ keeps_listing_order
         [ (Problem.not_loaded_but_not_inactive, "b.service");
           (Problem.not_loaded_but_not_inactive, "a.service") ]
         (sort [ (Problem.not_loaded_but_not_inactive, "b.service");
                 (Problem.not_loaded_but_not_inactive, "a.service") ])
  /\ main (Ok two_not_found) []
     = Exit "WARNING: not loaded but not inactive: a.service b.service " 1.
Proof.
  repeat split; try reflexivity.
  intros K. specialize (K Problem.not_loaded_but_not_inactive).
  discriminate K.
Qed.

Lemma entry_le_antisym (x y : entry) : entry_le x y -> entry_le y x -> x = y.
Proof.
  destruct x as [p1 n1], y as [p2 n2]. unfold entry_le. simpl.
  intros [L1 | [E1 S1]] [L2 | [E2 S2]]; try lia;
    try (subst; lia).
  subst. f_equal. now apply String.leb_antisym.
Qed.

Lemma entry_le_refl (x : entry) : entry_le x x.
Proof. right. split; [reflexivity | apply string_leb_refl]. Qed.

Lemma sorted_perm_eq (l1 : list entry) : forall l2,
  StronglySorted entry_le l1 -> StronglySorted entry_le l2 ->
  Permutation l1 l2 -> l1 = l2.
Proof.
  induction l1 as [| x l1 IH]; intros l2 S1 S2 P.
  - apply Permutation_nil in P. now subst.
  - destruct l2 as [| y l2].
    + symmetry in P. apply Permutation_nil in P. discriminate.
    + inversion S1 as [| ? ? S1' F1]; subst.
      inversion S2 as [| ? ? S2' F2]; subst.
      rewrite Forall_forall in F1, F2.
      assert (Lyx : entry_le y x).
      { assert (Hin : In x (y :: l2))
          by (apply (Permutation_in _ P); now left).
        destruct Hin as [-> | Hin]; [apply entry_le_refl | now apply F2]. }
      assert (Lxy : entry_le x y).
      { assert (Hin : In y (x :: l1))
          by (apply (Permutation_in _ (Permutation_sym P)); now left).
        destruct Hin as [-> | Hin]; [apply entry_le_refl | now apply F1]. }
      assert (E : x = y) by now apply entry_le_antisym.
      subst y. f_equal. apply IH; try assumption.
      now apply Permutation_cons_inv with x.
Qed.

(** C3, amended: [sort] rearranges a bucket (nothing is lost or added) so
    that its entries are in the category order Failed, Dead,
    NotLoadedButNotInactive, NotLoadedButNotDead, and entries of one
    category are in ascending order of unit name, compared byte by byte;
    the sorted bucket is the same for every listing order of its
    entries. *)
Theorem sort_by_category_then_name (b : list entry) :
  Permutation b (sort b)
  /\ StronglySorted category_le (sort b)
  /\ StronglySorted entry_le (sort b)
  /\ (forall b', Permutation b b' -> sort b' = sort b).
Proof.
  split; [apply sort_perm |].
  split; [apply (StronglySorted_impl entry_le); [apply entry_le_category_le
                                                | apply sort_sorted] |].
  split; [apply sort_sorted |].
  intros b' P. apply sorted_perm_eq; try apply sort_sorted.
  rewrite <- (sort_perm b'), <- (sort_perm b). now symmetry.
Qed.

(** ** The verdict *)

Lemma report_status cs ws :
  exists v printed,
    report cs ws = Exit printed (exit_code v) /\ status_line v printed.
Proof.
  rewrite report_cases. cbv zeta.
  destruct (sort cs) as [| c C]; [destruct (sort ws) as [| w W] |].
  - exists OK. eexists. split; reflexivity.
  - exists WARNING. eexists. split; [reflexivity |]. simpl. eauto.
  - exists CRITICAL. eexists. split; [reflexivity |]. simpl. eauto.
Qed.

(** C4: on a listing whose lines all hold a record, with C and W the
    sorted buckets: when C is not empty [main] prints "CRITICAL: " and the
    message of C followed by W and exits with 2; otherwise when W is not
    empty it prints "WARNING: " and the message of W and exits with 1;
    otherwise it prints "OK" and exits with 0.  And whenever [main] prints
    and exits, on any input, the line starts with the status word whose
    code (OK=0, WARNING=1, CRITICAL=2, UNKNOWN=3) is the exit status. *)
Theorem verdict_and_exit_code (output : string) (critical : list string)
    (units : list UnitRecord) :
  listing (splitlines output) = Some units ->
  let C := sort (bucket critical CRITICALS (classified units)) in
  let W := sort (bucket critical WARNINGS (classified units)) in
  (C <> [] ->
     exists message, get_message (C ++ W) = Ok message
       /\ main (Ok output) critical = Exit ("CRITICAL: " ++ message) 2)
  /\ (C = [] -> W <> [] ->
        exists message, get_message W = Ok message
          /\ main (Ok output) critical = Exit ("WARNING: " ++ message) 1)
  /\ (C = [] -> W = [] -> main (Ok output) critical = Exit "OK" 0)
  /\ (forall check_output critical_services,
        match main check_output critical_services with
        | Exit printed status =>
            exists v, status = exit_code v /\ status_line v printed
        | Uncaught _ => True
        end).
Proof.
  intros L C W.
  rewrite (main_listing critical output units L), report_cases. cbv zeta.
  fold C W.
  split; [| split; [| split]].
  - intros HC. exists (render_groups (groups (C ++ W))).
    split; [apply get_message_groups |].
    destruct C; [contradiction | reflexivity].
  - intros -> HW. exists (render_groups (groups W)).
    split; [apply get_message_groups |].
    destruct W; [contradiction | reflexivity].
  - now intros -> ->.
  - intros check_output critical_services. unfold main.
    destruct check_output as [out | []]; try exact I.
    + destruct (main_loop critical_services (splitlines out) ([], []))
        as [[cs ws] | e]; [| exact I].
      destruct (report_status cs ws) as (v & printed & -> & Hv).
      now exists v.
    + exists UNKNOWN. split; [reflexivity |]. simpl. eauto.
Qed.

Lemma verdict_and_exit_code_witness :
  listing (splitlines mixed_listing) = Some mixed_units
  /\ main (Ok mixed_listing) ["db.service"]
     = Exit ("CRITICAL: "
             ++ "failed: db.service not loaded but not inactive: web.service ")
         2.
Proof.
  split; [reflexivity |].
  destruct (verdict_and_exit_code mixed_listing ["db.service"] mixed_units
              eq_refl) as (H & _).
  destruct H as (message & Hm & Hmain); [discriminate |].
  rewrite Hmain. injection Hm as <-. reflexivity.
Defined.

(** C5: on a listing whose lines all hold a record, when a unit whose
    name is critical is classified Failed, [main] prints a line that
    starts with "CRITICAL: " and exits with 2, whatever the other units
    are. *)
Theorem critical_failed_is_CRITICAL (output : string)
    (critical : list string) (units : list UnitRecord) (u : UnitRecord) :
  listing (splitlines output) = Some units ->
  In u units ->
  contains critical (name u) = true ->
  classify u = Some Problem.failed ->
  exists message,
    main (Ok output) critical = Exit ("CRITICAL: " ++ message) 2.
Proof.
  intros L Hu Hc Hf.
  rewrite (main_listing critical output units L), report_cases. cbv zeta.
  assert (Hin : In (Problem.failed, name u)
                  (sort (bucket critical CRITICALS (classified units)))).
  { rewrite sort_In, bucket_In. split.
    - unfold classified. apply in_flat_map. exists u. split; [exact Hu |].
      rewrite Hf. now left.
    - unfold bucket_of. now rewrite Hc. }
  destruct (sort (bucket critical CRITICALS (classified units)));
    [contradiction | eauto].
Qed.

Lemma critical_failed_is_CRITICAL_witness :
  exists message,
    main (Ok mixed_listing) ["db.service"] = Exit ("CRITICAL: " ++ message) 2.
Proof.
  apply (critical_failed_is_CRITICAL mixed_listing ["db.service"] mixed_units
           {| name := "db.service"; loadState := "loaded";
              activeState := "failed"; subState := "failed" |}).
  - reflexivity.
  - simpl. tauto.
  - reflexivity.
  - reflexivity.
Defined.

(** ** Lines that hold no record *)

(** C6, as the specification states it, fails: a line with two fields ends
    the run with a TypeError nobody catches, and a blank line with an
    IndexError; nothing is printed and the exit status is not 3. *)
Lemma short_line_raises :
  Exists malformed (splitlines short_line)
  /\ main (Ok short_line) [] = Uncaught TypeError
  /\ main (Ok (line "")) [] = Uncaught IndexError
  /\ (forall printed, main (Ok short_line) [] <> Exit printed 3).
Proof.
  split; [| split; [| split]].
  - apply Exists_cons_tl, Exists_cons_hd. unfold malformed. simpl. lia.
  - reflexivity.
  - reflexivity.
  - intros printed. discriminate.
Qed.

(** C6, amended: when a line of the listing has fewer than four fields,
    the line is neither skipped nor classified: the run ends at the first
    such line with an exception nobody catches, an IndexError when the
    line has no field and a TypeError when it has one to three, so that no
    verdict is printed, whatever the other lines and the critical names
    are. *)
Theorem malformed_line_raises (output : string) (critical : list string) :
  Exists malformed (splitlines output) ->
  exists good bad rest,
    splitlines output = good ++ bad :: rest
    /\ Forall (fun l => ~ malformed l) good
    /\ malformed bad
    /\ main (Ok output) critical = Uncaught (raised_by bad)
    /\ (raised_by bad = IndexError \/ raised_by bad = TypeError).
Proof.
  intros H. unfold main.
  destruct (main_loop_malformed critical _ ([], []) H)
    as (good & bad & rest & E & Fg & Mb & ->).
  exists good, bad, rest. repeat split; try assumption.
  unfold raised_by. destruct (split 4 (strip bad)); tauto.
Qed.

Lemma malformed_line_raises_witness :
  Exists malformed (splitlines short_line)
  /\ exists good bad rest,
       splitlines short_line = good ++ bad :: rest
       /\ Forall (fun l => ~ malformed l) good
       /\ malformed bad
       /\ main (Ok short_line) ["db.service"] = Uncaught (raised_by bad)
       /\ (raised_by bad = IndexError \/ raised_by bad = TypeError).
Proof.
  assert (M : Exists malformed (splitlines short_line)).
  { apply Exists_cons_tl, Exists_cons_hd. unfold malformed. simpl. lia. }
  split; [exact M |].
  exact (malformed_line_raises short_line ["db.service"] M).
Defined.

(** ** When the listing command fails *)

(** C7, as the specification states it, fails: when the command cannot be
    run, [check_output] raises an OSError, which the handler does not
    name; it reaches the process boundary and nothing is printed. *)
Lemma OSError_not_caught :
  main (Raise (OSError "[Errno 2] No such file or directory")) []
  = Uncaught (OSError "[Errno 2] No such file or directory")
  /\ (forall printed status,
        main (Raise (OSError "[Errno 2] No such file or directory")) []
        <> Exit printed status).
Proof. split; [reflexivity | intros printed status; discriminate]. Qed.

Lemma report_not_UNKNOWN cs ws printed :
  report cs ws <> Exit printed (exit_code UNKNOWN).
Proof.
  rewrite report_cases. cbv zeta.
  destruct (sort cs) as [| c C]; [destruct (sort ws) as [| w W] |];
    discriminate.
Qed.

(** C7, amended: when the listing command exits with a non-zero status
    ([check_output] raises CalledProcessError), [main] prints "UNKNOWN: "
    followed by the text of the error and exits with 3, whatever the
    critical names are; the loop and [get_message] are not reached, as
    there is no output to run them on.  Every other exception that
    [check_output] raises, such as the OSError of a command that cannot be
    run, is not caught: it reaches the process boundary and nothing is
    printed.  And [main] exits with 3 in no other case: whenever it does,
    [check_output] raised a CalledProcessError and the line printed is
    "UNKNOWN: " followed by its text. *)
Theorem CalledProcessError_is_UNKNOWN :
  (forall (error : string) (critical : list string),
      main (Raise (CalledProcessError error)) critical
      = Exit ("UNKNOWN: " ++ error) (exit_code UNKNOWN))
  /\ (forall (e : Exception) (critical : list string),
         (forall error, e <> CalledProcessError error) ->
         main (Raise e) critical = Uncaught e
         /\ forall printed status,
              main (Raise e) critical <> Exit printed status)
  /\ (forall (check_output : result string) (critical : list string)
             (printed : string),
         main check_output critical = Exit printed (exit_code UNKNOWN) ->
         exists error,
           check_output = Raise (CalledProcessError error)
           /\ printed = ("UNKNOWN: " ++ error)%string).
Proof.
  split; [| split].
  - reflexivity.
  - intros e critical N.
    assert (E : main (Raise e) critical = Uncaught e).
    { destruct e as [error | | | |]; try reflexivity.
      now contradiction (N error). }
    split; [exact E |]. intros printed status. rewrite E. discriminate.
  - intros check_output critical printed H.
    destruct check_output as [output | e].
    + unfold main in H.
      destruct (main_loop critical (splitlines output) ([], []))
        as [[cs ws] | e]; [| discriminate].
      now apply report_not_UNKNOWN in H.
    + destruct e as [error | | | |]; try discriminate.
      exists error. split; [reflexivity |].
      simpl in H. now injection H as <-.
Qed.

Lemma CalledProcessError_is_UNKNOWN_witness :
  main (Raise (OSError "[Errno 13] Permission denied")) ["db.service"]
  = Uncaught (OSError "[Errno 13] Permission denied")
  /\ main (Raise (CalledProcessError
                    "Command 'systemctl' returned non-zero exit status 1"))
       ["db.service"]
     = Exit "UNKNOWN: Command 'systemctl' returned non-zero exit status 1" 3.
Proof.
  destruct CalledProcessError_is_UNKNOWN as (Hcaught & Hother & _).
  split.
  - apply (Hother (OSError "[Errno 13] Permission denied") ["db.service"]).
    intros error. discriminate.
  - apply (Hcaught "Command 'systemctl' returned non-zero exit status 1"
             ["db.service"]).
Defined.

(** ** The message format *)

(** C8: [get_message] never fails and returns, for the groups of
    consecutive entries of one category (every group non-empty,
    neighbouring groups of different categories, the groups together being
    the entries in order), each group as its label, ": ", and its unit
    names each followed by a space, the label being the name of the
    category with underscores replaced by spaces.  The listing
    [(db, loaded, failed, failed)] with critical name db gives
    "CRITICAL: failed: db " and exit status 2. *)
Theorem get_message_format :
  (forall problems : list entry,
      get_message problems = Ok (render_groups (groups problems))
      /\ ungroup (groups problems) = problems
      /\ maximal_runs (groups problems))
  /\ (forall p ns,
         render_group (p, ns)
         = (replace (Problem.name p) "_" " " ++ ": " ++ render_names ns)%string)
  /\ get_message [ (Problem.failed, "unitA"); (Problem.failed, "unitB");
                   (Problem.not_loaded_but_not_dead, "unitC") ]
     = Ok "failed: unitA unitB not loaded but not dead: unitC "
  /\ main (Ok scenario_A) ["db"] = Exit "CRITICAL: failed: db " 2.
Proof.
  split; [| split; [| split]]; try reflexivity.
  - intros problems. split; [apply get_message_groups |].
    split; [apply ungroup_groups | apply groups_maximal].
  - intros p ns. unfold render_group, label. simpl. apply append_assoc.
Qed.

(** ** Criticals are Failed *)

Lemma main_loop_Ok_listing critical lines : forall buckets buckets',
  main_loop critical lines buckets = Ok buckets' ->
  exists units, listing lines = Some units.
Proof.
  induction lines as [| line0 rest IH]; intros buckets buckets' H.
  - now exists [].
  - cbn [main_loop] in H. simpl listing.
    destruct (record_of_line line0) as [u |] eqn:R.
    + destruct buckets as [cs ws].
      rewrite (main_loop_body_record _ _ _ _ _ R) in H. cbn [bind] in H.
      destruct (IH _ _ H) as (us & ->). now exists (u :: us).
    + rewrite (main_loop_body_malformed critical line0 buckets R) in H.
      discriminate.
Qed.

Lemma StronglySorted_app {A : Type} (R : A -> A -> Prop) (l1 l2 : list A) :
  StronglySorted R l1 -> StronglySorted R l2 ->
  (forall x y, In x l1 -> In y l2 -> R x y) ->
  StronglySorted R (l1 ++ l2).
Proof.
  intros S1 S2 H. induction S1 as [| x l1 S1 IH Hx]; simpl; [exact S2 |].
  constructor.
  - apply IH. intros a b Ha Hb. apply H; [now right | exact Hb].
  - apply Forall_app. split; [exact Hx |].
    apply Forall_forall. intros y Hy. apply H; [now left | exact Hy].
Qed.

Lemma sort_category_sorted l : StronglySorted category_le (sort l).
Proof.
  apply (StronglySorted_impl entry_le);
    [apply entry_le_category_le | apply sort_sorted].
Qed.

(** C9: when the loop of [main] ends with buckets C and W, every entry of
    C is Failed; the sequence of sorted C followed by sorted W is in
    category order from one end to the other; and in the message of that
    sequence, as in the message of sorted W alone, the groups have
    different labels, so that no category label is written twice. *)
Theorem criticals_failed_labels_once (critical : list string)
    (lines : list string) (C W : list entry) :
  main_loop critical lines ([], []) = Ok (C, W) ->
  Forall is_failed C
  /\ StronglySorted category_le (sort C ++ sort W)
  /\ get_message (sort C ++ sort W)
     = Ok (render_groups (groups (sort C ++ sort W)))
  /\ NoDup (map (fun g => label (fst g)) (groups (sort C ++ sort W)))
  /\ get_message (sort W) = Ok (render_groups (groups (sort W)))
  /\ NoDup (map (fun g => label (fst g)) (groups (sort W))).
Proof.
  intros H.
  destruct (main_loop_Ok_listing _ _ _ _ H) as (units & L).
  rewrite (main_loop_listing critical lines units [] [] L) in H.
  injection H as <- <-. cbn [app].
  set (C := bucket critical CRITICALS (classified units)).
  set (W := bucket critical WARNINGS (classified units)).
  assert (F : Forall is_failed C).
  { apply Forall_forall. intros [p n] Hin. apply bucket_In in Hin.
    destruct Hin as [_ B]. unfold bucket_of in B. unfold is_failed. simpl.
    destruct p; try reflexivity; try discriminate.
    destruct (contains critical n); discriminate. }
  assert (S : StronglySorted category_le (sort C ++ sort W)).
  { apply StronglySorted_app; try apply sort_category_sorted.
    intros x y Hx _. apply (proj1 (sort_In _ _)) in Hx.
    rewrite Forall_forall in F. specialize (F x Hx).
    unfold is_failed in F. unfold category_le. rewrite F.
    destruct (fst y); simpl; lia. }
  repeat split; try assumption; try apply get_message_groups.
  - now apply sorted_groups_labels, groups_sorted.
  - apply sorted_groups_labels, groups_sorted, sort_category_sorted.
Qed.

Lemma criticals_failed_labels_once_witness :
  Forall is_failed [(Problem.failed, "db.service")]
  /\ get_message
       (sort [(Problem.failed, "db.service")]
        ++ sort [(Problem.not_loaded_but_not_inactive, "web.service")])
     = Ok "failed: db.service not loaded but not inactive: web.service ".
Proof.
  destruct (criticals_failed_labels_once ["db.service"]
              (splitlines mixed_listing)
              [(Problem.failed, "db.service")]
              [(Problem.not_loaded_but_not_inactive, "web.service")]
              eq_refl) as (F & _ & G & _).
  split; [exact F |]. rewrite G. reflexivity.
Defined.

(** ** The empty listing *)

(** C10: when the command prints nothing, the loop leaves both buckets
    empty, and [main] prints "OK" and exits with 0, whatever the critical
    names are. *)
Theorem empty_listing_is_OK (critical : list string) :
  splitlines "" = []
  /\ main_loop critical (splitlines "") ([], []) = Ok ([], [])
  /\ main (Ok "") critical = Exit "OK" (exit_code OK).
Proof. repeat split. Qed.

(** * Further properties of the service check *)

(** ** The critical names *)

Lemma bucket_nil_iff critical b es :
  bucket critical b es = [] <-> forall e, In e es -> bucket_of critical e <> b.
Proof.
  split.
  - intros H e He B.
    assert (Hin : In e (bucket critical b es)) by now apply bucket_In.
    rewrite H in Hin. exact Hin.
  - intros H. destruct (bucket critical b es) as [| e l] eqn:E; [reflexivity |].
    assert (Hin : In e (bucket critical b es)) by (rewrite E; now left).
    apply bucket_In in Hin. destruct Hin as [He B]. now apply H in He.
Qed.

Lemma sort_nil l : sort l = [] <-> l = [].
Proof.
  split; intros H.
  - apply Permutation_nil. rewrite <- H. symmetry. apply sort_perm.
  - now subst.
Qed.

Lemma report_OK_iff cs ws : report cs ws = Exit "OK" 0 <-> cs = [] /\ ws = [].
Proof.
  rewrite report_cases. cbv zeta. rewrite <- (sort_nil cs), <- (sort_nil ws).
  destruct (sort cs) as [| c C]; destruct (sort ws) as [| w W];
    split; try (intros [? ?]); try intros ?; try discriminate; auto.
Qed.

Lemma main_raises_without_listing critical output :
  listing (splitlines output) = None ->
  exists e, main (Ok output) critical = Uncaught e
            /\ (e = IndexError \/ e = TypeError).
Proof.
  intros L. unfold main.
  destruct (main_loop critical (splitlines output) ([], []))
    as [[cs ws] | e] eqn:E.
  - destruct (main_loop_Ok_listing _ _ _ _ E) as (units & L'). congruence.
  - assert (M : Exists malformed (splitlines output)).
    { clear E. induction (splitlines output) as [| line0 rest IH];
        [discriminate |].
      simpl in L. destruct (record_of_line line0) eqn:R.
      - apply Exists_cons_tl. apply IH.
        destruct (listing rest); [discriminate | reflexivity].
      - apply Exists_cons_hd. now apply malformed_iff. }
    destruct (main_loop_malformed critical _ ([], []) M)
      as (good & bad & rest & _ & _ & _ & E').
    rewrite E' in E. injection E as <-. eexists. split; [reflexivity |].
    unfold raised_by. destruct (split 4 (strip bad)); tauto.
Qed.

(** X1: without critical names the check never answers CRITICAL: on any
    output of the command, [main] prints "OK" and exits with 0, or prints
    a line that starts with "WARNING: " and exits with 1, or stops on a
    line with fewer than four fields with an IndexError or a TypeError. *)
Theorem no_critical_names_at_most_WARNING (output : string) :
  match main (Ok output) [] with
  | Exit printed status =>
      (printed = "OK" /\ status = 0%Z)
      \/ (exists message, printed = ("WARNING: " ++ message)%string
                          /\ status = 1%Z)
  | Uncaught e => e = IndexError \/ e = TypeError
  end.
Proof.
  destruct (listing (splitlines output)) as [units |] eqn:L.
  - rewrite (main_listing [] output units L), report_cases. cbv zeta.
    assert (C : bucket [] CRITICALS (classified units) = []).
    { apply bucket_nil_iff. intros [p n] _. unfold bucket_of. simpl.
      destruct p; discriminate. }
    rewrite C. simpl sort.
    destruct (sort (bucket [] WARNINGS (classified units))); eauto.
  - destruct (main_raises_without_listing [] output L) as (e & -> & He).
    exact He.
Qed.

(** X2: on a listing whose lines all hold a record, [main] prints "OK"
    and exits with 0 exactly when every unit either has no problem or is
    Dead without being critical: a failed unit, a critical unit that is
    dead, and a unit that is not loaded but active or not dead each make
    the check answer something else. *)
Theorem OK_iff_nothing_to_report (output : string) (critical : list string)
    (units : list UnitRecord) :
  listing (splitlines output) = Some units ->
  main (Ok output) critical = Exit "OK" 0
  <-> (forall u, In u units ->
         classify u = None
         \/ (classify u = Some Problem.dead
             /\ contains critical (name u) = false)).
Proof.
  intros L. rewrite (main_listing critical output units L), report_OK_iff.
  rewrite !bucket_nil_iff. split.
  - intros [HC HW] u Hu. destruct (classify u) as [p |] eqn:E; [| now left].
    right.
    assert (Hin : In (p, name u) (classified units)).
    { unfold classified. apply in_flat_map. exists u. split; [exact Hu |].
      rewrite E. now left. }
    specialize (HC _ Hin). specialize (HW _ Hin). unfold bucket_of in HC, HW.
    destruct p, (contains critical (name u)); try congruence; auto.
  - intros H. split; intros [p n] Hin B; unfold classified in Hin;
      apply in_flat_map in Hin; destruct Hin as (u & Hu & Hin);
      destruct (H u Hu) as [E | [E Hc]]; rewrite E in Hin;
      try contradiction; destruct Hin as [[= <- <-] | []];
      unfold bucket_of in B; rewrite Hc in B; discriminate.
Qed.

Lemma OK_iff_nothing_to_report_witness :
  main (Ok (line "cron.service loaded active dead Cron")) ["db.service"]
  = Exit "OK" 0.
Proof.
  apply (OK_iff_nothing_to_report
           (line "cron.service loaded active dead Cron") ["db.service"]
           [ {| name := "cron.service"; loadState := "loaded";
                activeState := "active"; subState := "dead" |} ]).
  - reflexivity.
  - intros u [<- | []]. right. split; reflexivity.
Defined.

Lemma report_exits cs ws :
  exists printed status,
    report cs ws = Exit printed status
    /\ ((cs <> [] /\ status = 2%Z)
        \/ (cs = [] /\ ws <> [] /\ status = 1%Z)
        \/ (cs = [] /\ ws = [] /\ status = 0%Z)).
Proof.
  rewrite report_cases. cbv zeta.
  destruct (sort cs) as [| c C] eqn:EC;
    [apply (proj1 (sort_nil _)) in EC; subst cs;
     destruct (sort ws) as [| w W] eqn:EW;
     [apply (proj1 (sort_nil _)) in EW; subst ws |] |];
    do 2 eexists; (split; [reflexivity |]).
  - right. right. repeat split.
  - right. left. repeat split. intros ->. discriminate.
  - left. split; [| reflexivity]. intros ->. discriminate.
Qed.

Lemma bucket_of_more_critical critical critical' (e : entry) :
  (forall n, contains critical n = true -> contains critical' n = true) ->
  (bucket_of critical e = CRITICALS -> bucket_of critical' e = CRITICALS)
  /\ (bucket_of critical e = WARNINGS -> bucket_of critical' e <> Dropped).
Proof.
  intros Hsub. destruct e as [p n]. unfold bucket_of.
  specialize (Hsub n).
  destruct p, (contains critical n), (contains critical' n);
    split; intros H; try discriminate; try reflexivity;
    try (specialize (Hsub eq_refl); discriminate).
Qed.

Lemma not_nil_In {A : Type} (l : list A) : l <> [] -> exists x, In x l.
Proof. destruct l as [| x l]; [contradiction | exists x; now left]. Qed.

(** X3: more critical names never lower the answer.  On a listing whose
    lines all hold a record, when every name critical in a first run is
    critical in a second one, both runs print and exit, and the exit
    status of the second is at least that of the first. *)
Theorem more_critical_names_not_lower (output : string)
    (critical critical' : list string) (units : list UnitRecord) :
  listing (splitlines output) = Some units ->
  (forall n, contains critical n = true -> contains critical' n = true) ->
  exists printed status printed' status',
    main (Ok output) critical = Exit printed status
    /\ main (Ok output) critical' = Exit printed' status'
    /\ (0 <= status <= status' /\ status' <= 2)%Z.
Proof.
  intros L Hsub.
  rewrite (main_listing critical output units L),
    (main_listing critical' output units L).
  set (es := classified units).
  destruct (report_exits (bucket critical CRITICALS es)
              (bucket critical WARNINGS es))
    as (printed & status & -> & H).
  destruct (report_exits (bucket critical' CRITICALS es)
              (bucket critical' WARNINGS es))
    as (printed' & status' & -> & H').
  exists printed, status, printed', status'.
  split; [reflexivity |]. split; [reflexivity |].
  destruct H as [[N ->] | [(_ & N & ->) | (_ & _ & ->)]].
  - apply not_nil_In in N. destruct N as (e & He).
    apply bucket_In in He. destruct He as [He B].
    apply (bucket_of_more_critical critical critical' e Hsub) in B.
    assert (Hin : In e (bucket critical' CRITICALS es))
      by now apply bucket_In.
    destruct H' as [[_ ->] | [(E & _) | (E & _)]]; try lia;
      rewrite E in Hin; contradiction.
  - apply not_nil_In in N. destruct N as (e & He).
    apply bucket_In in He. destruct He as [He B].
    apply (bucket_of_more_critical critical critical' e Hsub) in B.
    destruct H' as [[_ ->] | [(_ & _ & ->) | (EC & EW & _)]]; try lia.
    exfalso.
    destruct (bucket_of critical' e) eqn:B'; try congruence.
    + assert (Hin : In e (bucket critical' CRITICALS es))
        by now apply bucket_In.
      rewrite EC in Hin. contradiction.
    + assert (Hin : In e (bucket critical' WARNINGS es))
        by now apply bucket_In.
      rewrite EW in Hin. contradiction.
  - destruct H' as [[_ ->] | [(_ & _ & ->) | (_ & _ & ->)]]; lia.
Qed.

Lemma more_critical_names_not_lower_witness :
  exists printed status printed' status',
    main (Ok mixed_listing) [] = Exit printed status
    /\ main (Ok mixed_listing) ["db.service"] = Exit printed' status'
    /\ (0 <= status <= status' /\ status' <= 2)%Z.
Proof.
  apply (more_critical_names_not_lower mixed_listing [] ["db.service"]
           mixed_units).
  - reflexivity.
  - intros n H. discriminate H.
Defined.

(** ** The order of the lines and of the names *)

Lemma filter_perm {A : Type} (f : A -> bool) (l l' : list A) :
  Permutation l l' -> Permutation (filter f l) (filter f l').
Proof.
  induction 1 as [| x l l' P IH | x y l | l l' l'' P1 IH1 P2 IH2]; simpl.
  - constructor.
  - destruct (f x); [now constructor | exact IH].
  - destruct (f x), (f y); try reflexivity. apply perm_swap.
  - now transitivity (filter f l').
Qed.

Lemma sort_perm_eq (b b' : list entry) :
  Permutation b b' -> sort b = sort b'.
Proof.
  intros P. apply sorted_perm_eq; try apply sort_sorted.
  now rewrite <- (sort_perm b), <- (sort_perm b').
Qed.

(** X4: the answer does not depend on the order of the lines.  When two
    outputs of the command hold the same unit records in different orders
    (every line holding a record), [main] prints the same line and exits
    with the same status on both. *)
Theorem line_order_irrelevant (output output' : string)
    (critical : list string) (units units' : list UnitRecord) :
  listing (splitlines output) = Some units ->
  listing (splitlines output') = Some units' ->
  Permutation units units' ->
  main (Ok output) critical = main (Ok output') critical.
Proof.
  intros L L' P.
  rewrite (main_listing critical output units L),
    (main_listing critical output' units' L').
  assert (Pc : Permutation (classified units) (classified units')).
  { unfold classified. now apply Permutation_flat_map. }
  unfold report.
  rewrite (sort_perm_eq _ _ (filter_perm _ _ _ Pc : Permutation
             (bucket critical CRITICALS (classified units))
             (bucket critical CRITICALS (classified units')))).
  rewrite (sort_perm_eq _ _ (filter_perm _ _ _ Pc : Permutation
             (bucket critical WARNINGS (classified units))
             (bucket critical WARNINGS (classified units')))).
  reflexivity.
Qed.

Lemma line_order_irrelevant_witness :
  main (Ok (line "b.service not-found active running"
            ++ line "a.service loaded failed failed")%string) ["c.service"]
  = main (Ok (line "a.service loaded failed failed"
              ++ line "b.service not-found active running")%string)
      ["c.service"].
Proof.
  apply (line_order_irrelevant _ _ ["c.service"]
           [ {| name := "b.service"; loadState := "not-found";
                activeState := "active"; subState := "running" |};
             {| name := "a.service"; loadState := "loaded";
                activeState := "failed"; subState := "failed" |} ]
           [ {| name := "a.service"; loadState := "loaded";
                activeState := "failed"; subState := "failed" |};
             {| name := "b.service"; loadState := "not-found";
                activeState := "active"; subState := "running" |} ]).
  - reflexivity.
  - reflexivity.
  - apply perm_swap.
Defined.

Lemma main_loop_body_same_names critical critical' buckets line0 :
  (forall n, contains critical n = contains critical' n) ->
  main_loop_body critical buckets line0
  = main_loop_body critical' buckets line0.
Proof.
  intros H. unfold main_loop_body. destruct buckets as [cs ws].
  destruct (getitem (split 4 (strip line0)) 0) as [n | e]; [| reflexivity].
  cbn [bind]. now rewrite (H n).
Qed.

Lemma main_loop_same_names critical critical' lines : forall buckets,
  (forall n, contains critical n = contains critical' n) ->
  main_loop critical lines buckets = main_loop critical' lines buckets.
Proof.
  induction lines as [| line0 rest IH]; intros buckets H; [reflexivity |].
  cbn [main_loop]. rewrite (main_loop_body_same_names _ _ _ _ H).
  destruct (main_loop_body critical' buckets line0); cbn [bind];
    [now apply IH | reflexivity].
Qed.

(** X5: only the set of critical names counts: two lists of names with
    the same members, in any order and with any repetition, give the same
    outcome on every result of the listing command. *)
Theorem critical_names_as_set (check_output : result string)
    (critical critical' : list string) :
  (forall n, In n critical <-> In n critical') ->
  main check_output critical = main check_output critical'.
Proof.
  intros H.
  assert (Hc : forall n, contains critical n = contains critical' n).
  { intros n. unfold contains.
    destruct (existsb (String.eqb n) critical) eqn:E.
    - symmetry. apply existsb_exists in E. destruct E as (m & Hm & E).
      apply existsb_exists. exists m. split; [now apply H | exact E].
    - symmetry. destruct (existsb (String.eqb n) critical') eqn:E';
        [| reflexivity].
      apply existsb_exists in E'. destruct E' as (m & Hm & E').
      rewrite <- E. symmetry. apply existsb_exists. exists m.
      split; [now apply H | exact E']. }
  unfold main. destruct check_output as [output | e]; [| reflexivity].
  now rewrite (main_loop_same_names critical critical' _ _ Hc).
Qed.

Lemma critical_names_as_set_witness :
  main (Ok mixed_listing) ["db.service"; "cron.service"; "db.service"]
  = main (Ok mixed_listing) ["cron.service"; "db.service"].
Proof.
  apply critical_names_as_set. intros n. simpl. tauto.
Defined.

(** ** Reading a line *)

Lemma lstrip_blank_app w r : blank w = true -> lstrip (w ++ r) = lstrip r.
Proof.
  induction w as [| c w IH]; simpl; [reflexivity |].
  intros H. apply andb_true_iff in H. destruct H as [Hc Hw].
  rewrite Hc. now apply IH.
Qed.

Lemma lstrip_field_app t r : field t = true -> lstrip (t ++ r) = (t ++ r)%string.
Proof.
  destruct t as [| c t]; simpl; [discriminate |].
  intros H. apply andb_true_iff in H. destruct H as [Hc _].
  now destruct (isspace c).
Qed.

Lemma rstrip_nospace_app t r :
  nospace t = true -> rstrip (t ++ r) = (t ++ rstrip r)%string.
Proof.
  induction t as [| c t IH]; simpl; [reflexivity |].
  intros H. apply andb_true_iff in H. destruct H as [Hc Ht].
  rewrite (IH Ht). destruct (isspace c); [discriminate |].
  now destruct (t ++ rstrip r)%string.
Qed.

Lemma rstrip_blank_app w r :
  rstrip r <> EmptyString -> rstrip (w ++ r) = (w ++ rstrip r)%string.
Proof.
  intros N. induction w as [| c w IH]; simpl; [reflexivity |].
  rewrite IH. destruct (w ++ rstrip r)%string eqn:E; [| reflexivity].
  destruct w; simpl in E; [contradiction | discriminate].
Qed.

Lemma field_nospace t : field t = true -> nospace t = true.
Proof. now destruct t. Qed.

Lemma field_app_not_empty t r : field t = true -> (t ++ r)%string <> EmptyString.
Proof. destruct t; simpl; [discriminate | intros _; discriminate]. Qed.

Lemma rstrip_starts_blank r :
  starts_blank r = true -> starts_blank (rstrip r) = true.
Proof.
  destruct r as [| c r]; simpl; [reflexivity |].
  intros Hc. rewrite Hc. now destruct (rstrip r).
Qed.

Lemma separator_app_starts_blank w r :
  separator w = true -> starts_blank (w ++ r) = true.
Proof.
  destruct w as [| c w]; simpl; [discriminate |].
  intros H. apply andb_true_iff in H. tauto.
Qed.

Lemma separator_blank w : separator w = true -> blank w = true.
Proof. now destruct w. Qed.

Lemma span_nonspace_app t r :
  nospace t = true -> starts_blank r = true ->
  span_nonspace (t ++ r) = (t, r).
Proof.
  intros Ht Hr. induction t as [| c t IH]; simpl.
  - destruct r as [| c r]; simpl in *; [reflexivity | now rewrite Hr].
  - simpl in Ht. apply andb_true_iff in Ht. destruct Ht as [Hc Ht].
    destruct (isspace c); [discriminate |]. now rewrite (IH Ht).
Qed.

Lemma split_field_app m t r :
  field t = true -> starts_blank r = true ->
  split (S m) (t ++ r) = t :: split m r.
Proof.
  intros Ht Hr.
  assert (E : split (S m) (t ++ r)
              = match lstrip (t ++ r) with
                | EmptyString => []
                | String _ _ =>
                    let (tok, rest) := span_nonspace (lstrip (t ++ r)) in
                    tok :: split m rest
                end).
  { simpl. now destruct (lstrip (t ++ r)). }
  rewrite E, (lstrip_field_app t r Ht).
  rewrite (span_nonspace_app t r (field_nospace t Ht) Hr).
  destruct (t ++ r)%string eqn:N; [| reflexivity].
  now apply field_app_not_empty in N.
Qed.

Lemma split_blank_app m w r : blank w = true -> split m (w ++ r) = split m r.
Proof.
  intros Hw. destruct m; simpl; now rewrite (lstrip_blank_app w r Hw).
Qed.

(** X6: a line written as a unit name, a load state, an active state and
    a sub state, each without white space, separated by runs of white
    space, with any white space before the name and, after the sub state,
    nothing or white space and any text (the description), is read as the
    record of these four fields: what follows the sub state is ignored. *)
Theorem line_holds_its_record (pad n w1 l w2 a w3 s tail : string) :
  blank pad = true ->
  field n = true -> field l = true -> field a = true -> field s = true ->
  separator w1 = true -> separator w2 = true -> separator w3 = true ->
  starts_blank tail = true ->
  record_of_line (pad ++ n ++ w1 ++ l ++ w2 ++ a ++ w3 ++ s ++ tail)
  = Some {| name := n; loadState := l; activeState := a; subState := s |}.
Proof.
  intros Hp Hn Hl Ha Hs H1 H2 H3 Ht.
  unfold record_of_line, strip.
  rewrite (lstrip_blank_app pad _ Hp), (lstrip_field_app n _ Hn).
  assert (Es : rstrip (s ++ tail) = (s ++ rstrip tail)%string)
    by now apply rstrip_nospace_app, field_nospace.
  assert (Ea : rstrip (a ++ w3 ++ s ++ tail)
               = (a ++ w3 ++ s ++ rstrip tail)%string).
  { rewrite (rstrip_nospace_app a _ (field_nospace a Ha)).
    rewrite rstrip_blank_app, Es; [reflexivity |].
    rewrite Es. now apply field_app_not_empty. }
  assert (El : rstrip (l ++ w2 ++ a ++ w3 ++ s ++ tail)
               = (l ++ w2 ++ a ++ w3 ++ s ++ rstrip tail)%string).
  { rewrite (rstrip_nospace_app l _ (field_nospace l Hl)).
    rewrite rstrip_blank_app, Ea; [reflexivity |].
    rewrite Ea. now apply field_app_not_empty. }
  rewrite (rstrip_nospace_app n _ (field_nospace n Hn)).
  rewrite rstrip_blank_app, El;
    [| rewrite El; now apply field_app_not_empty].
  rewrite (split_field_app 3 n _ Hn (separator_app_starts_blank w1 _ H1)).
  rewrite (split_blank_app 3 w1 _ (separator_blank w1 H1)).
  rewrite (split_field_app 2 l _ Hl (separator_app_starts_blank w2 _ H2)).
  rewrite (split_blank_app 2 w2 _ (separator_blank w2 H2)).
  rewrite (split_field_app 1 a _ Ha (separator_app_starts_blank w3 _ H3)).
  rewrite (split_blank_app 1 w3 _ (separator_blank w3 H3)).
  rewrite (split_field_app 0 s _ Hs (rstrip_starts_blank tail Ht)).
  reflexivity.
Qed.

Lemma line_holds_its_record_witness :
  record_of_line
    ("  " ++ "db.service" ++ "   " ++ "loaded" ++ " " ++ "failed" ++ "  "
     ++ "failed" ++ " PostgreSQL database server ")
  = Some {| name := "db.service"; loadState := "loaded";
            activeState := "failed"; subState := "failed" |}.
Proof.
  apply (line_holds_its_record "  " "db.service" "   " "loaded" " "
           "failed" "  " "failed" " PostgreSQL database server ");
    reflexivity.
Defined.

(** ** The failed units of a CRITICAL line *)

Lemma filter_split_perm {A : Type} (f : A -> bool) (l : list A) :
  Permutation l (filter f l ++ filter (fun x => negb (f x)) l).
Proof.
  induction l as [| x l IH]; simpl; [constructor |].
  destruct (f x); simpl.
  - now constructor.
  - now apply Permutation_cons_app.
Qed.

Lemma sort_by_category_split (c : Problem.t) (l : list entry) :
  (forall e, In e l -> Problem.value c <= Problem.value (fst e))%Z ->
  sort l = sort (of_category c l) ++ sort (not_of_category c l).
Proof.
  intros Hmin. apply sorted_perm_eq.
  - apply sort_sorted.
  - apply StronglySorted_app; try apply sort_sorted.
    intros x y Hx Hy.
    apply (proj1 (sort_In _ _)) in Hx. apply (proj1 (sort_In _ _)) in Hy.
    unfold of_category in Hx. unfold not_of_category in Hy.
    apply filter_In in Hx, Hy. destruct Hx as [_ Hx]. destruct Hy as [Hy Ny].
    destruct (Problem_eqb_spec (fst x) c) as [Ex | Nx]; [| discriminate].
    left. rewrite Ex. specialize (Hmin y Hy).
    destruct (Problem_eqb_spec (fst y) c) as [Ey | Ny']; [discriminate |].
    destruct (Z.eq_dec (Problem.value c) (Problem.value (fst y))) as [E | E];
      [apply Problem_value_inj in E; congruence | lia].
  - rewrite <- (sort_perm l).
    rewrite <- (sort_perm (of_category c l)),
      <- (sort_perm (not_of_category c l)).
    apply filter_split_perm.
Qed.

Lemma groups_first_run (p : Problem.t) (F R : list entry) :
  F <> [] ->
  Forall (fun e => fst e = p) F ->
  Forall (fun e => fst e <> p) R ->
  groups (F ++ R) = (p, map snd F) :: groups R.
Proof.
  intros N HF HR. induction HF as [| [q n] F Hq HF IH]; [contradiction |].
  simpl in Hq. subst q. destruct F as [| e F'].
  - cbn [app map snd]. rewrite groups_cons.
    destruct R as [| [q m] R']; [reflexivity |].
    destruct (groups_head q m R') as (ns & gs & G). rewrite G.
    inversion HR as [| ? ? Hq _]; subst. simpl in Hq.
    destruct (Problem_eqb_spec p q) as [E | _]; [congruence | reflexivity].
  - change (((p, n) :: e :: F') ++ R) with ((p, n) :: ((e :: F') ++ R)).
    rewrite groups_cons, IH by discriminate.
    unfold Problem.eqb. now rewrite Z.eqb_refl.
Qed.

(** X7: a CRITICAL line does not tell critical failed units from the
    others.  On a listing whose lines all hold a record, when some
    critical unit is Failed, what [main] prints is "CRITICAL: failed: ",
    then the failed critical units in name order, then the failed units
    that are not critical in name order, all under that one label, then
    the groups of the remaining warnings; the exit status is 2. *)
Theorem CRITICAL_line_lists_all_failed (output : string)
    (critical : list string) (units : list UnitRecord) :
  listing (splitlines output) = Some units ->
  let C := bucket critical CRITICALS (classified units) in
  let W := bucket critical WARNINGS (classified units) in
  C <> [] ->
  main (Ok output) critical
  = Exit ("CRITICAL: "
          ++ "failed: "
          ++ render_names
               (map snd (sort C)
                ++ map snd (sort (of_category Problem.failed W)))
          ++ render_groups
               (groups (sort (not_of_category Problem.failed W))))
      2.
Proof.
  intros L C W N.
  rewrite (main_listing critical output units L), report_cases. cbv zeta.
  fold C W.
  assert (NC : sort C <> [])
    by (intros E; apply (proj1 (sort_nil _)) in E; contradiction).
  assert (FC : Forall (fun e => fst e = Problem.failed) (sort C)).
  { apply Forall_forall. intros [p n] Hin.
    apply (proj1 (sort_In _ _)) in Hin. apply bucket_In in Hin.
    destruct Hin as [_ B]. unfold bucket_of in B. simpl.
    destruct p; try reflexivity; try discriminate.
    destruct (contains critical n); discriminate. }
  assert (Hmin : forall e : entry, In e W ->
            (Problem.value Problem.failed <= Problem.value (fst e))%Z).
  { intros [p n] _. destruct p; simpl; lia. }
  rewrite (sort_by_category_split Problem.failed W Hmin).
  rewrite app_assoc.
  rewrite (groups_first_run Problem.failed
             (sort C ++ sort (of_category Problem.failed W))
             (sort (not_of_category Problem.failed W))).
  - destruct (sort C) as [| c C']; [contradiction |].
    rewrite map_app. reflexivity.
  - destruct (sort C); [contradiction | discriminate].
  - apply Forall_app. split; [exact FC |].
    apply Forall_forall. intros e Hin.
    apply (proj1 (sort_In _ _)) in Hin. unfold of_category in Hin.
    apply filter_In in Hin. destruct Hin as [_ Hin].
    now destruct (Problem_eqb_spec (fst e) Problem.failed).
  - apply Forall_forall. intros e Hin.
    apply (proj1 (sort_In _ _)) in Hin. unfold not_of_category in Hin.
    apply filter_In in Hin. destruct Hin as [_ Hin].
    destruct (Problem_eqb_spec (fst e) Problem.failed);
      [discriminate | assumption].
Qed.

Lemma CRITICAL_line_lists_all_failed_witness :
  main (Ok (line "web.service loaded failed failed"
            ++ line "db.service loaded failed failed"
            ++ line "nfs.service not-found active running")%string)
    ["db.service"]
  = Exit ("CRITICAL: failed: db.service web.service "
          ++ "not loaded but not inactive: nfs.service ") 2.
Proof.
  apply (CRITICAL_line_lists_all_failed
           (line "web.service loaded failed failed"
            ++ line "db.service loaded failed failed"
            ++ line "nfs.service not-found active running")
           ["db.service"]
           [ {| name := "web.service"; loadState := "loaded";
                activeState := "failed"; subState := "failed" |};
             {| name := "db.service"; loadState := "loaded";
                activeState := "failed"; subState := "failed" |};
             {| name := "nfs.service"; loadState := "not-found";
                activeState := "active"; subState := "running" |} ]).
  - reflexivity.
  - discriminate.
Defined.

(** * Properties of the open-files limit check *)

Lemma first_limit_cases name limits :
  Ulimit.first_limit name limits = Ulimit.Returns (Int 0)
  \/ (exists v, Ulimit.first_limit name limits = Ulimit.Returns (Str v))
  \/ Ulimit.first_limit name limits = Ulimit.Raises Ulimit.IndexError.
Proof.
  induction limits as [| line0 rest IH]; cbn [Ulimit.first_limit];
    [now left |].
  destruct (String.prefix name line0); [| exact IH].
  destruct (nth_error (Ulimit.split_all line0) 3) as [v |];
    [right; left; now exists v | now right; right].
Qed.

Lemma get_proc_ulimit_cases fs pid name :
  Ulimit.get_proc_ulimit fs pid name = Ulimit.Returns (Int 0)
  \/ (exists v, Ulimit.get_proc_ulimit fs pid name = Ulimit.Returns (Str v))
  \/ Ulimit.get_proc_ulimit fs pid name = Ulimit.Raises Ulimit.IndexError.
Proof.
  unfold Ulimit.get_proc_ulimit.
  destruct (Ulimit.read_proc_db fs [pid; "limits"]);
    [apply first_limit_cases | now left].
Qed.

Lemma get_state_body_cases E fs warning state msg pid :
  Ulimit.get_state_body E fs warning (state, msg) pid
  = Ulimit.Returns
      (if Z.eqb state (Ulimit.warning E) || Z.eqb state (Ulimit.critical E)
       then state else Ulimit.ok E, msg)
  \/ (Ulimit.get_state_body E fs warning (state, msg) pid
      = Ulimit.Raises Ulimit.IndexError
      /\ Ulimit.get_proc_ulimit fs pid "Max open files"
         = Ulimit.Raises Ulimit.IndexError).
Proof.
  unfold Ulimit.get_state_body.
  destruct (get_proc_ulimit_cases fs pid "Max open files")
    as [-> | [(v & ->) | ->]]; cbn [Ulimit.bind Ulimit.gt Ulimit.eq_int].
  - left. now rewrite Z.eqb_refl, orb_true_r.
  - now left.
  - now right.
Qed.

Lemma get_state_loop_never_alerts E fs warning pids : forall state,
  state = Ulimit.unknown E \/ state = Ulimit.ok E ->
  match Ulimit.get_state_loop E fs warning pids (state, "") with
  | Ulimit.Returns (state', msg) =>
      msg = "" /\ (state' = Ulimit.unknown E \/ state' = Ulimit.ok E)
  | Ulimit.Raises e => e = Ulimit.IndexError
  end.
Proof.
  induction pids as [| pid rest IH]; intros state Hs;
    cbn [Ulimit.get_state_loop].
  - now split.
  - destruct (get_state_body_cases E fs warning state "" pid)
      as [-> | [-> _]]; cbn [Ulimit.bind]; [| reflexivity].
    apply IH.
    destruct (Z.eqb state (Ulimit.warning E)
              || Z.eqb state (Ulimit.critical E)); [exact Hs | now right].
Qed.

Lemma get_state_loop_ok E fs warning pids : forall state,
  (state = Ulimit.unknown E \/ state = Ulimit.ok E) ->
  Ulimit.unknown E <> Ulimit.warning E ->
  Ulimit.unknown E <> Ulimit.critical E ->
  (forall pid, In pid pids ->
     Ulimit.get_proc_ulimit fs pid "Max open files"
     <> Ulimit.Raises Ulimit.IndexError) ->
  Ulimit.get_state_loop E fs warning pids (state, "")
  = Ulimit.Returns (match pids with [] => state | _ :: _ => Ulimit.ok E end,
                    "").
Proof.
  induction pids as [| pid rest IH]; intros state Hs Hw Hc Hl;
    [reflexivity |].
  cbn [Ulimit.get_state_loop].
  destruct (get_state_body_cases E fs warning state "" pid)
    as [-> | [_ R]]; [| now apply Hl in R; [| now left]].
  cbn [Ulimit.bind].
  assert (E1 : (if Z.eqb state (Ulimit.warning E)
                   || Z.eqb state (Ulimit.critical E)
                then state else Ulimit.ok E) = Ulimit.ok E).
  { destruct (Z.eqb_spec state (Ulimit.warning E)) as [Ew | Nw];
      destruct (Z.eqb_spec state (Ulimit.critical E)) as [Ec | Nc];
      simpl; try reflexivity; destruct Hs; congruence. }
  rewrite E1, IH; try assumption.
  - now destruct rest.
  - now right.
  - intros p Hp. apply Hl. now right.
Qed.

(** X8: [get_state] never finds a process near or at its limit.  Whatever
    the open files and the limits are, it returns an empty message and the
    state [unknown] or [ok], or stops with an IndexError; and when
    [unknown] differs from [warning] and [critical] and the soft limit of
    every process can be read, it returns [ok] as soon as /proc lists one
    process, and [unknown] when it lists none.  The soft limit is a text
    or the integer 0, the first is greater than every number of open
    files and the second is taken as no limit. *)
Theorem get_state_never_alerts (E : Ulimit.ExitCodes) (fs : Ulimit.proc)
    (warning : Z) :
  match Ulimit.get_state E fs warning with
  | Ulimit.Returns (state, msg) =>
      msg = "" /\ (state = Ulimit.unknown E \/ state = Ulimit.ok E)
  | Ulimit.Raises e => e = Ulimit.IndexError
  end
  /\ (Ulimit.unknown E <> Ulimit.warning E ->
      Ulimit.unknown E <> Ulimit.critical E ->
      (forall pid, In pid (Ulimit.pids fs) ->
         Ulimit.get_proc_ulimit fs pid "Max open files"
         <> Ulimit.Raises Ulimit.IndexError) ->
      Ulimit.get_state E fs warning
      = Ulimit.Returns (match Ulimit.pids fs with
                        | [] => Ulimit.unknown E
                        | _ :: _ => Ulimit.ok E
                        end, "")).
Proof.
  split.
  - apply get_state_loop_never_alerts. now left.
  - intros Hw Hc Hl. unfold Ulimit.get_state.
    apply get_state_loop_ok; try assumption. now left.
Qed.

(** X9: the only exit of the check that the script does not decide is
    that of the option parser, and what the script decides is never the
    warning or the critical status.  When argparse ends the process,
    [main] ends with the status of argparse, before it looks at the user
    or at any process.  When the options are read and the user is not
    root, [main] prints that it needs to be run as root and exits with
    [unknown], without looking at any process; when the user is root it
    prints "OK" and exits with [ok], or prints an empty line and exits
    with [unknown], or stops with an IndexError. *)
Theorem ulimit_main_never_alerts (E : Ulimit.ExitCodes) (fs : Ulimit.proc)
    (args : Ulimit.parse_args) (uid : Z) :
  match Ulimit.main E fs args uid with
  | Ulimit.Exit printed status =>
      (exists warning, args = Ulimit.Namespace warning)
      /\ ((printed = "OK" /\ status = Ulimit.ok E /\ uid = 0%Z)
          \/ (printed = "" /\ status = Ulimit.unknown E /\ uid = 0%Z)
          \/ (printed = "I need to be run as root, really"
              /\ status = Ulimit.unknown E /\ uid <> 0%Z))
  | Ulimit.ParserExit status => args = Ulimit.SystemExit status
  | Ulimit.Uncaught e =>
      (exists warning, args = Ulimit.Namespace warning)
      /\ e = Ulimit.IndexError /\ uid = 0%Z
  end
  /\ (forall status,
        Ulimit.main E fs (Ulimit.SystemExit status) uid
        = Ulimit.ParserExit status)
  /\ (forall warning,
        uid <> 0%Z ->
        Ulimit.main E fs (Ulimit.Namespace warning) uid
        = Ulimit.Exit "I need to be run as root, really" (Ulimit.unknown E)).
Proof.
  split; [| split].
  - destruct args as [warning | st]; [| reflexivity].
    unfold Ulimit.main.
    destruct (Z.eqb_spec uid 0) as [U | U]; simpl negb; cbv iota.
    + pose proof (get_state_loop_never_alerts E fs warning (Ulimit.pids fs)
                    (Ulimit.unknown E) (or_introl eq_refl)) as H.
      fold (Ulimit.get_state E fs warning) in H.
      destruct (Ulimit.get_state E fs warning) as [[state msg] | e].
      * destruct H as [-> Hs]. split; [now exists warning |].
        destruct (Z.eqb_spec state (Ulimit.ok E)) as [Eo | No].
        -- left. now repeat split.
        -- right. left. split; [reflexivity |].
           split; [destruct Hs; congruence | exact U].
      * split; [now exists warning | now split].
    + split; [now exists warning |]. right. right. now repeat split.
  - reflexivity.
  - intros warning N. unfold Ulimit.main.
    destruct (Z.eqb_spec uid 0); [contradiction | reflexivity].
Qed.

Lemma get_state_never_alerts_witness :
  Ulimit.get_state Ulimit.nagios Ulimit.one_process 60
  = Ulimit.Returns (Ulimit.ok Ulimit.nagios, "").
Proof.
  apply (get_state_never_alerts Ulimit.nagios Ulimit.one_process 60).
  - discriminate.
  - discriminate.
  - intros pid [<- | []]. discriminate.
Defined.

Lemma ulimit_main_never_alerts_witness :
  Ulimit.main Ulimit.nagios Ulimit.one_process (Ulimit.Namespace 60) 1000
  = Ulimit.Exit "I need to be run as root, really" 3
  /\ Ulimit.main Ulimit.nagios Ulimit.one_process (Ulimit.SystemExit 2) 0
     = Ulimit.ParserExit 2
  /\ Ulimit.main Ulimit.nagios Ulimit.one_process (Ulimit.Namespace 60) 0
     = Ulimit.Exit "OK" 0.
Proof.
  destruct (ulimit_main_never_alerts Ulimit.nagios Ulimit.one_process
              (Ulimit.Namespace 60) 1000) as (_ & Hexit & Hroot).
  split; [apply Hroot; discriminate |].
  split; [apply Hexit | reflexivity].
Defined.

(** ** Reading the soft limit *)

Lemma first_limit_skip name before rest :
  Forall (fun l => String.prefix name l = false) before ->
  Ulimit.first_limit name (before ++ rest) = Ulimit.first_limit name rest.
Proof.
  induction 1 as [| l before Hl _ IH]; [reflexivity |].
  cbn [app Ulimit.first_limit]. now rewrite Hl.
Qed.

Lemma prefix_app (a r : string) : String.prefix a (a ++ r) = true.
Proof.
  induction a as [| c a IH]; simpl.
  - now destruct r.
  - destruct (ascii_dec c c) as [_ | N]; [exact IH | now contradiction N].
Qed.

(** X10: [get_proc_ulimit] returns the soft limit as the text of the
    limits file, not as a number.  When the limits file of a process has a
    line made of "Max open files", white space, the soft limit and what
    follows it, after lines that do not start with "Max open files", the
    value returned for that name is the [str] of the soft limit. *)
Theorem get_proc_ulimit_soft_limit (fs : Ulimit.proc)
    (pid w soft tail : string) (before after : list string) :
  Ulimit.readlines fs ("/proc/" ++ pid ++ "/limits")
  = Some (before ++ ("Max open files" ++ w ++ soft ++ tail)%string :: after) ->
  Forall (fun l => String.prefix "Max open files" l = false) before ->
  separator w = true ->
  field soft = true ->
  starts_blank tail = true ->
  Ulimit.get_proc_ulimit fs pid "Max open files" = Ulimit.Returns (Str soft).
Proof.
  intros R Hb Hw Hs Ht.
  unfold Ulimit.get_proc_ulimit, Ulimit.read_proc_db.
  change ("/proc/" ++ String.concat "/" [pid; "limits"])%string
    with ("/proc/" ++ pid ++ "/limits")%string.
  rewrite R, (first_limit_skip _ _ _ Hb).
  cbn [Ulimit.first_limit].
  rewrite prefix_app. unfold Ulimit.split_all.
  set (r := (w ++ soft ++ tail)%string).
  assert (L : String.length ("Max open files" ++ r)
              = S (S (S (S (10 + String.length r))))) by reflexivity.
  rewrite L.
  change ("Max open files" ++ r)%string
    with ("Max" ++ " " ++ "open" ++ " " ++ "files" ++ r)%string.
  rewrite split_field_app by reflexivity.
  rewrite (split_blank_app _ " ") by reflexivity.
  rewrite split_field_app by reflexivity.
  rewrite (split_blank_app _ " ") by reflexivity.
  subst r.
  rewrite split_field_app;
    [| reflexivity | now apply separator_app_starts_blank].
  rewrite (split_blank_app _ w) by now apply separator_blank.
  rewrite split_field_app by assumption.
  reflexivity.
Qed.

Lemma get_proc_ulimit_soft_limit_witness :
  Ulimit.get_proc_ulimit Ulimit.one_process "812" "Max open files"
  = Ulimit.Returns (Str "2").
Proof.
  apply (get_proc_ulimit_soft_limit Ulimit.one_process "812"
           "            " "2" ("           4096        files" ++ String LF "")
           [ line "Limit                     Soft Limit  Hard Limit  Units";
             line "Max cpu time              unlimited   unlimited   seconds" ]
           []); reflexivity || (repeat constructor).
Defined.

(** * Properties of the statistics reader *)

Lemma length_append (a b : string) :
  String.length (a ++ b) = (String.length a + String.length b)%nat.
Proof. induction a as [| c a IH]; simpl; [reflexivity | now rewrite IH]. Qed.

Lemma drop_app (d a : string) : Pgbouncer.drop (String.length d) (d ++ a) = a.
Proof. induction d as [| c d IH]; simpl; [now destruct a | exact IH]. Qed.

Lemma prefix_drop (sep s : string) :
  String.prefix sep s = true ->
  s = (sep ++ Pgbouncer.drop (String.length sep) s)%string.
Proof.
  revert s. induction sep as [| c sep IH]; intros s H.
  - simpl. now destruct s.
  - destruct s as [| x s]; simpl in H; [discriminate |].
    destruct (ascii_dec c x) as [-> | _]; [| discriminate].
    simpl. f_equal. now apply IH.
Qed.

Lemma partition_spec (sep s before after : string) :
  Pgbouncer.partition sep s = Some (before, after) ->
  s = (before ++ sep ++ after)%string.
Proof.
  revert before. induction s as [| c s IH]; intros before;
    cbn [Pgbouncer.partition].
  - destruct (String.prefix sep "") eqn:P; [| discriminate].
    intros [= <- <-]. now apply prefix_drop.
  - destruct (String.prefix sep (String c s)) eqn:P.
    + intros [= <- <-]. now apply prefix_drop.
    + destruct (Pgbouncer.partition sep s) as [[b a] |]; [| discriminate].
      intros [= <- <-]. cbn [append]. f_equal. now apply IH.
Qed.

Lemma partition_shorter (sep s before after : string) :
  sep <> EmptyString ->
  Pgbouncer.partition sep s = Some (before, after) ->
  (String.length after < String.length s)%nat.
Proof.
  intros N H. apply partition_spec in H. subst s.
  rewrite !length_append. destruct sep; [contradiction | simpl; lia].
Qed.

Lemma split_fuel_enough (sep : string) : sep <> EmptyString ->
  forall fuel fuel' s,
    (String.length s < fuel)%nat -> (String.length s < fuel')%nat ->
    Pgbouncer.split_fuel fuel sep s = Pgbouncer.split_fuel fuel' sep s.
Proof.
  intros N. induction fuel as [| fuel IH]; intros fuel' s H H'; [lia |].
  destruct fuel' as [| fuel']; [lia |]. cbn [Pgbouncer.split_fuel].
  destruct (Pgbouncer.partition sep s) as [[b a] |] eqn:P; [| reflexivity].
  pose proof (partition_shorter sep s b a N P). f_equal. apply IH; lia.
Qed.

Lemma split_fuel_cut (sep s before after : string) :
  sep <> EmptyString ->
  Pgbouncer.partition sep s = Some (before, after) ->
  Pgbouncer.split_fuel (S (String.length s)) sep s
  = before :: Pgbouncer.split_fuel (S (String.length after)) sep after.
Proof.
  intros N P.
  assert (E : forall fuel t,
             Pgbouncer.split_fuel (S fuel) sep t
             = match Pgbouncer.partition sep t with
               | Some (b, a) => b :: Pgbouncer.split_fuel fuel sep a
               | None => [t]
               end) by reflexivity.
  rewrite (E (String.length s) s), P. f_equal.
  pose proof (partition_shorter sep s before after N P).
  apply split_fuel_enough; [exact N | lia | lia].
Qed.

Lemma partition_first (sep before after : string) :
  Pgbouncer.starts_nowhere sep before (sep ++ after) = true ->
  Pgbouncer.partition sep (before ++ sep ++ after) = Some (before, after).
Proof.
  induction before as [| c b IH]; intros H.
  - cbn [append]. 
    assert (E : forall t, String.prefix sep t = true ->
                Pgbouncer.partition sep t
                = Some (EmptyString, Pgbouncer.drop (String.length sep) t)).
    { intros t Ht. destruct t; cbn [Pgbouncer.partition]; now rewrite Ht. }
    rewrite E by apply prefix_app. now rewrite drop_app.
  - cbn [Pgbouncer.starts_nowhere] in H. apply andb_true_iff in H.
    destruct H as [H1 H2]. apply negb_true_iff in H1.
    change ((String c b ++ sep ++ after)%string)
      with (String c (b ++ sep ++ after)) in *.
    cbn [Pgbouncer.partition]. rewrite H1, (IH H2). reflexivity.
Qed.

Lemma partition_later (sep r rest : string) :
  Pgbouncer.starts_nowhere sep r rest = true ->
  Pgbouncer.partition sep (r ++ rest) = None
  \/ exists y after,
       Pgbouncer.partition sep (r ++ rest) = Some ((r ++ y)%string, after).
Proof.
  induction r as [| c r IH]; intros H.
  - cbn [append]. destruct (Pgbouncer.partition sep rest) as [[b a] |];
      [right; now exists b, a | now left].
  - cbn [Pgbouncer.starts_nowhere] in H. apply andb_true_iff in H.
    destruct H as [H1 H2]. apply negb_true_iff in H1.
    change ((String c r ++ rest)%string) with (String c (r ++ rest)) in *.
    cbn [Pgbouncer.partition]. rewrite H1.
    destruct (IH H2) as [-> | (y & a & ->)]; [now left |].
    right. now exists y, a.
Qed.

Lemma prefix_cons (a c : ascii) (p r : string) :
  String.prefix (String a p) (String c r)
  = if ascii_dec a c then String.prefix p r else false.
Proof. reflexivity. Qed.

Lemma partition_bar (f after : string) :
  Pgbouncer.no_bar f = true ->
  Pgbouncer.partition "|" (f ++ "|" ++ after) = Some (f, after).
Proof.
  intros H. apply partition_first.
  induction f as [| c f IH]; [reflexivity |].
  cbn [Pgbouncer.no_bar] in H. apply andb_true_iff in H.
  destruct H as [Hc Hf]. cbn [Pgbouncer.starts_nowhere].
  rewrite (IH Hf), andb_true_r.
  change ((String c f ++ "|" ++ after)%string)
    with (String c (f ++ "|" ++ after)).
  rewrite prefix_cons.
  destruct (ascii_dec "|" c) as [<- | _]; [discriminate | reflexivity].
Qed.

Lemma split_bar_cut (f after : string) :
  Pgbouncer.no_bar f = true ->
  Pgbouncer.split_fuel (S (String.length (f ++ "|" ++ after))) "|"
    (f ++ "|" ++ after)
  = f :: Pgbouncer.split_fuel (S (String.length after)) "|" after.
Proof.
  intros H. apply split_fuel_cut; [discriminate | now apply partition_bar].
Qed.

Lemma split_fuel_step (fuel : nat) (sep t : string) :
  Pgbouncer.split_fuel (S fuel) sep t
  = match Pgbouncer.partition sep t with
    | Some (b, a) => b :: Pgbouncer.split_fuel fuel sep a
    | None => [t]
    end.
Proof. reflexivity. Qed.

Lemma six_columns (x f1 f2 f3 f4 f5 z : string) :
  Pgbouncer.no_bar x = true ->
  Pgbouncer.no_bar f1 = true -> Pgbouncer.no_bar f2 = true ->
  Pgbouncer.no_bar f3 = true -> Pgbouncer.no_bar f4 = true ->
  Pgbouncer.no_bar f5 = true ->
  Pgbouncer.bind
    (Pgbouncer.split
       (x ++ "|" ++ f1 ++ "|" ++ f2 ++ "|" ++ f3 ++ "|" ++ f4 ++ "|" ++ f5
        ++ "|" ++ z) (Some "|"))
    (fun columns => Pgbouncer.getitem columns 5)
  = Pgbouncer.Returns f5.
Proof.
  intros Hx H1 H2 H3 H4 H5. cbn [Pgbouncer.split Pgbouncer.bind].
  rewrite (split_bar_cut x _ Hx), (split_bar_cut f1 _ H1),
    (split_bar_cut f2 _ H2), (split_bar_cut f3 _ H3),
    (split_bar_cut f4 _ H4), (split_bar_cut f5 _ H5).
  reflexivity.
Qed.

(** X11: the number returned is the sixth column of the first place
    where the database name occurs, be it inside a longer name.  When the
    output has the name [d] first after [pre], followed by some text [x]
    without a bar (nothing when the row is that of [d] itself, the rest
    of the name when the row is that of a database whose name starts
    with [d]), a bar, and five columns each followed by a bar, and [d]
    does not occur again before the end of these columns, then
    [get_pgbouncer_requests] returns the fifth of these columns. *)
Theorem get_pgbouncer_requests_first_occurrence
    (pre d x f1 f2 f3 f4 f5 rest : string) :
  d <> EmptyString ->
  Pgbouncer.starts_nowhere d pre
    (d ++ x ++ "|" ++ f1 ++ "|" ++ f2 ++ "|" ++ f3 ++ "|" ++ f4 ++ "|" ++ f5
     ++ "|" ++ rest) = true ->
  Pgbouncer.starts_nowhere d
    (x ++ "|" ++ f1 ++ "|" ++ f2 ++ "|" ++ f3 ++ "|" ++ f4 ++ "|" ++ f5 ++ "|")
    rest = true ->
  Pgbouncer.no_bar x = true ->
  Pgbouncer.no_bar f1 = true -> Pgbouncer.no_bar f2 = true ->
  Pgbouncer.no_bar f3 = true -> Pgbouncer.no_bar f4 = true ->
  Pgbouncer.no_bar f5 = true ->
  Pgbouncer.get_pgbouncer_requests
    (pre ++ d ++ x ++ "|" ++ f1 ++ "|" ++ f2 ++ "|" ++ f3 ++ "|" ++ f4 ++ "|"
     ++ f5 ++ "|" ++ rest) (Some d)
  = Pgbouncer.Returns f5.
Proof.
  intros Nd Hpre Hrow Hx H1 H2 H3 H4 H5.
  set (r := (x ++ "|" ++ f1 ++ "|" ++ f2 ++ "|" ++ f3 ++ "|" ++ f4 ++ "|"
             ++ f5 ++ "|")%string) in *.
  assert (Er : forall z,
             (r ++ z)%string
             = (x ++ "|" ++ f1 ++ "|" ++ f2 ++ "|" ++ f3 ++ "|" ++ f4 ++ "|"
                ++ f5 ++ "|" ++ z)%string).
  { intros z. subst r. now rewrite !append_assoc. }
  rewrite <- (Er rest) in *.
  unfold Pgbouncer.get_pgbouncer_requests.
  assert (Es : Pgbouncer.split (pre ++ d ++ r ++ rest) (Some d)
               = Pgbouncer.Returns
                   (Pgbouncer.split_fuel
                      (S (String.length (pre ++ d ++ r ++ rest))) d
                      (pre ++ d ++ r ++ rest)))
    by (destruct d; [contradiction | reflexivity]).
  rewrite Es. cbn [Pgbouncer.bind].
  rewrite (split_fuel_cut d _ pre (r ++ rest) Nd (partition_first _ _ _ Hpre)).
  rewrite split_fuel_step.
  destruct (partition_later d r rest Hrow) as [-> | (y & a & ->)];
    cbn [Pgbouncer.getitem nth_error Pgbouncer.bind]; rewrite Er;
    now apply six_columns.
Qed.

Lemma get_pgbouncer_requests_first_occurrence_witness :
  Pgbouncer.get_pgbouncer_requests Pgbouncer.two_databases (Some "app")
  = Pgbouncer.Returns "12".
Proof.
  apply (get_pgbouncer_requests_first_occurrence "" "app" "_old"
           "81" "9000" "7000" "400" "12"
           ("130|110|5" ++ String LF ""
            ++ line "app|204|88000|91000|1300|57|960|1020|6"));
    reflexivity || discriminate.
Defined.

(** X12: when the database name is not empty and does not occur in the
    output, [get_pgbouncer_requests] stops with an IndexError: the output
    is one piece and there is no second one. *)
Theorem get_pgbouncer_requests_unknown_database (output d : string) :
  d <> EmptyString ->
  (forall before after, output <> (before ++ d ++ after)%string) ->
  Pgbouncer.get_pgbouncer_requests output (Some d)
  = Pgbouncer.Raises Pgbouncer.IndexError.
Proof.
  intros Nd Habs. unfold Pgbouncer.get_pgbouncer_requests.
  assert (Es : Pgbouncer.split output (Some d)
               = Pgbouncer.Returns
                   (Pgbouncer.split_fuel (S (String.length output)) d output))
    by (destruct d; [contradiction | reflexivity]).
  rewrite Es, split_fuel_step. cbn [Pgbouncer.bind].
  destruct (Pgbouncer.partition d output) as [[b a] |] eqn:P; [| reflexivity].
  apply partition_spec in P. now apply Habs in P.
Qed.

Lemma partition_complete (d before after : string) :
  Pgbouncer.partition d (before ++ d ++ after) <> None.
Proof.
  induction before as [| c b IH].
  - cbn [append].
    assert (E : forall t, String.prefix d t = true ->
                Pgbouncer.partition d t <> None).
    { intros t Ht. destruct t; cbn [Pgbouncer.partition]; now rewrite Ht. }
    apply E, prefix_app.
  - change ((String c b ++ d ++ after)%string)
      with (String c (b ++ d ++ after)).
    cbn [Pgbouncer.partition].
    destruct (String.prefix d (String c (b ++ d ++ after))); [discriminate |].
    destruct (Pgbouncer.partition d (b ++ d ++ after)) as [[x y] |];
      [discriminate | contradiction].
Qed.

Lemma get_pgbouncer_requests_unknown_database_witness :
  Pgbouncer.get_pgbouncer_requests Pgbouncer.two_databases (Some "web")
  = Pgbouncer.Raises Pgbouncer.IndexError.
Proof.
  apply get_pgbouncer_requests_unknown_database; [discriminate |].
  intros before after H.
  apply (partition_complete "web" before after). rewrite <- H. reflexivity.
Defined.
